(** * CLIR: news crawlers and index builder

    A shallow embedding of the ingestion code of the repository
    (the four spiders under [news_crawler/spiders] and
    [indexing/build_index.py]) together with the properties that its
    design document states about them.

    Python [str] values are sequences of Unicode code points and are
    modelled as [list N]; Python [int] is [Z]; [dict] and [set] are
    stdpp's [gmap] and [gset]. *)

From Stdlib Require Import ZArith NArith QArith Lqa String Ascii Sorted.
From stdpp Require Import gmap list.

Local Open Scope N_scope.

(** ** Python strings *)

Module PyStr.

Abbreviation pystr := (list N).

(** Code points of an ASCII literal. *)
Definition py (s : string) : pystr :=
  List.map N_of_ascii (list_ascii_of_string s).

(** [str.isspace] on one code point: the characters on which
    [str.split()], [str.strip()] and the regular expression class
    [\s] act. *)
Definition is_space (c : N) : bool :=
  ((9 <=? c) && (c <=? 13)) || ((28 <=? c) && (c <=? 32))
  || (c =? 133) || (c =? 160) || (c =? 5760)
  || ((8192 <=? c) && (c <=? 8202))
  || (c =? 8232) || (c =? 8233) || (c =? 8239) || (c =? 8287)
  || (c =? 12288).

Definition is_ascii (c : N) : bool := c <? 128.

Definition is_ascii_digit (c : N) : bool := (48 <=? c) && (c <=? 57).
Definition is_ascii_upper (c : N) : bool := (65 <=? c) && (c <=? 90).
Definition is_ascii_lower (c : N) : bool := (97 <=? c) && (c <=? 122).

Definition is_ascii_alnum (c : N) : bool :=
  is_ascii_digit c || is_ascii_upper c || is_ascii_lower c.

Definition ascii_lower (c : N) : N :=
  if is_ascii_upper c then c + 32 else c.

(** [s.lstrip()], [s.rstrip()] and [s.strip()]. *)
Fixpoint lstrip (s : pystr) : pystr :=
  match s with
  | c :: s' => if is_space c then lstrip s' else s
  | [] => []
  end.

Definition rstrip (s : pystr) : pystr := rev (lstrip (rev s)).

Definition strip (s : pystr) : pystr := rstrip (lstrip s).

(** [s.split()]: maximal runs of non-whitespace characters.  [cur] is
    the run being read, in reverse. *)
Fixpoint split_go (cur : pystr) (s : pystr) : list pystr :=
  match s with
  | [] => match cur with [] => [] | _ => [rev cur] end
  | c :: s' =>
      if is_space c
      then match cur with
           | [] => split_go [] s'
           | _ => rev cur :: split_go [] s'
           end
      else split_go (c :: cur) s'
  end.

Definition split (s : pystr) : list pystr := split_go [] s.

(** [str(n)] for a non-negative integer: its decimal digits. *)
Fixpoint digits_go (fuel : nat) (n : N) (acc : pystr) : pystr :=
  match fuel with
  | O => acc
  | S fuel' =>
      let acc' := (48 + n mod 10) :: acc in
      if n <? 10 then acc' else digits_go fuel' (n / 10) acc'
  end.

Definition str_of_N (n : N) : pystr :=
  digits_go (S (N.to_nat (N.log2 n))) n [].

Definition str_of_nat (n : nat) : pystr := str_of_N (N.of_nat n).

Definition str_of_Z (z : Z) : pystr :=
  if (z <? 0)%Z then 45 :: str_of_N (Z.to_N (- z)) else str_of_N (Z.to_N z).

(** [sub in s] *)
Fixpoint is_prefix (p s : pystr) : bool :=
  match p, s with
  | [], _ => true
  | a :: p', b :: s' => (a =? b) && is_prefix p' s'
  | _ :: _, [] => false
  end.

Fixpoint contains (sub s : pystr) : bool :=
  is_prefix sub s ||
  match s with
  | [] => false
  | _ :: s' => contains sub s'
  end.

(** [' '.join(words)] *)
Fixpoint join_space (words : list pystr) : pystr :=
  match words with
  | [] => []
  | [w] => w
  | w :: rest => w ++ 32 :: join_space rest
  end.

End PyStr.

Import PyStr.

(** ** The [json] library: values, [json.dumps], [json.loads] *)

Module Json.

(** What [json.loads] builds.  A [float] keeps its lexeme: the code
    never computes with one.  A [dict] keeps its members in reading
    order; a later member with the same key overrides an earlier one
    ([dict_get]). *)
#[warnings="-register-all"]
Inductive json : Type :=
| JNull
| JBool (b : bool)
| JInt (z : Z)
| JFloat (lexeme : pystr)
| JStr (s : pystr)
| JArr (items : list json)
| JObj (members : list (pystr * json)).

(** [d.get(k)] on the members of a [dict]. *)
Fixpoint dict_get (k : pystr) (members : list (pystr * json)) : option json :=
  match members with
  | [] => None
  | (k', v) :: rest =>
      match dict_get k rest with
      | Some v' => Some v'
      | None => if decide (k' = k) then Some v else None
      end
  end.

(** *** Encoding: [json.dumps(obj, ensure_ascii=False)] *)

Definition hex_digit (n : N) : N := if n <? 10 then 48 + n else 87 + n.

(** [ESCAPE_DCT]: the quote, the backslash and the control characters
    are escaped, everything else is copied. *)
Definition escape_char (c : N) : pystr :=
  if c =? 34 then [92; 34]
  else if c =? 92 then [92; 92]
  else if c =? 10 then [92; 110]
  else if c =? 13 then [92; 114]
  else if c =? 9 then [92; 116]
  else if c =? 8 then [92; 98]
  else if c =? 12 then [92; 102]
  else if c <? 32 then [92; 117; 48; 48; hex_digit (c / 16); hex_digit (c mod 16)]
  else [c].

Definition encode_basestring (s : pystr) : pystr :=
  34 :: flat_map escape_char s ++ [34].

Fixpoint dumps (v : json) : pystr :=
  match v with
  | JNull => py "null"
  | JBool true => py "true"
  | JBool false => py "false"
  | JInt z => str_of_Z z
  | JFloat lexeme => lexeme
  | JStr s => encode_basestring s
  | JArr items =>
      91 :: (fix go (l : list json) : pystr :=
               match l with
               | [] => []
               | x :: l' =>
                   dumps x ++ match l' with [] => [] | _ => 44 :: 32 :: go l' end
               end) items ++ [93]
  | JObj members =>
      123 :: (fix go (l : list (pystr * json)) : pystr :=
                match l with
                | [] => []
                | (k, x) :: l' =>
                    encode_basestring k ++ 58 :: 32 :: dumps x
                      ++ match l' with [] => [] | _ => 44 :: 32 :: go l' end
                end) members ++ [125]
  end.

(** *** Decoding: [json.loads(s)] *)

Definition is_json_ws (c : N) : bool :=
  (c =? 32) || (c =? 9) || (c =? 10) || (c =? 13).

Fixpoint skip_ws (s : pystr) : pystr :=
  match s with
  | c :: s' => if is_json_ws c then skip_ws s' else s
  | [] => []
  end.

Definition hex_val (c : N) : option N :=
  if is_ascii_digit c then Some (c - 48)
  else if (97 <=? c) && (c <=? 102) then Some (c - 87)
  else if (65 <=? c) && (c <=? 70) then Some (c - 55)
  else None.

Definition hex4 (a b c d : N) : option N :=
  match hex_val a, hex_val b, hex_val c, hex_val d with
  | Some a, Some b, Some c, Some d => Some (((a * 16 + b) * 16 + c) * 16 + d)
  | _, _, _, _ => None
  end.

Definition is_high_surrogate (u : N) : bool := (55296 <=? u) && (u <=? 56319).
Definition is_low_surrogate (u : N) : bool := (56320 <=? u) && (u <=? 57343).
Definition join_surrogates (hi lo : N) : N :=
  65536 + (hi - 55296) * 1024 + (lo - 56320).

(** [BACKSLASH]: the one-letter escapes. *)
Definition simple_escape (e : N) : option N :=
  if e =? 34 then Some 34
  else if e =? 92 then Some 92
  else if e =? 47 then Some 47
  else if e =? 98 then Some 8
  else if e =? 102 then Some 12
  else if e =? 110 then Some 10
  else if e =? 114 then Some 13
  else if e =? 116 then Some 9
  else None.

Definition cons_char (c : N) (r : option (pystr * pystr)) : option (pystr * pystr) :=
  match r with
  | Some (str, rest) => Some (c :: str, rest)
  | None => None
  end.

(** [scanstring] in strict mode, called after the opening quote: the
    decoded string and what follows the closing quote. *)
Fixpoint scanstring (s : pystr) : option (pystr * pystr) :=
  match s with
  | [] => None
  | c :: s1 =>
      if c =? 34 then Some ([], s1)
      else if c =? 92 then
        match s1 with
        | [] => None
        | e :: s2 =>
            if e =? 117 then
              match s2 with
              | a :: b :: c' :: d :: s3 =>
                  match hex4 a b c' d with
                  | None => None
                  | Some u =>
                      if is_high_surrogate u then
                        match s3 with
                        | bs :: uu :: a2 :: b2 :: c2 :: d2 :: s4 =>
                            if (bs =? 92) && (uu =? 117) then
                              match hex4 a2 b2 c2 d2 with
                              | None => None
                              | Some u2 =>
                                  if is_low_surrogate u2
                                  then cons_char (join_surrogates u u2) (scanstring s4)
                                  else cons_char u (scanstring s3)
                              end
                            else cons_char u (scanstring s3)
                        | _ => cons_char u (scanstring s3)
                        end
                      else cons_char u (scanstring s3)
                  end
              | _ => None
              end
            else
              match simple_escape e with
              | Some x => cons_char x (scanstring s2)
              | None => None
              end
        end
      else if c <? 32 then None
      else cons_char c (scanstring s1)
  end.

(** The leading run of ASCII digits and what follows it. *)
Fixpoint span_digits (s : pystr) : pystr * pystr :=
  match s with
  | c :: s' =>
      if is_ascii_digit c
      then let '(ds, rest) := span_digits s' in (c :: ds, rest)
      else ([], s)
  | [] => ([], [])
  end.

Definition digits_value (ds : pystr) : Z :=
  fold_left (fun acc c => (acc * 10 + Z.of_N (c - 48))%Z) ds 0%Z.

(** The integer part: an optional minus sign, then a single zero or a
    run of digits that does not start with zero. *)
Definition match_integer (s : pystr) : option (bool * pystr * pystr) :=
  let '(neg, s1) :=
    match s with
    | c :: s' => if c =? 45 then (true, s') else (false, s)
    | [] => (false, s)
    end in
  match s1 with
  | c :: s2 =>
      if c =? 48 then Some (neg, [c], s2)
      else if is_ascii_digit c
      then let '(ds, rest) := span_digits s2 in Some (neg, c :: ds, rest)
      else None
  | [] => None
  end.

(** The fraction: a dot and at least one digit, when there is one. *)
Definition match_frac (s : pystr) : option (pystr * pystr) :=
  match s with
  | c :: s1 =>
      if c =? 46 then
        match span_digits s1 with
        | ([], _) => None
        | (ds, rest) => Some (c :: ds, rest)
        end
      else None
  | [] => None
  end.

(** The exponent: e or E, an optional sign and at least one digit,
    when there is one. *)
Definition match_exp (s : pystr) : option (pystr * pystr) :=
  match s with
  | c :: s1 =>
      if (c =? 101) || (c =? 69) then
        let '(sign, s2) :=
          match s1 with
          | g :: s' => if (g =? 45) || (g =? 43) then ([g], s') else ([], s1)
          | [] => ([], s1)
          end in
        match span_digits s2 with
        | ([], _) => None
        | (ds, rest) => Some (c :: sign ++ ds, rest)
        end
      else None
  | [] => None
  end.

Definition match_number (s : pystr) : option (json * pystr) :=
  match match_integer s with
  | None => None
  | Some (neg, ds, s1) =>
      let int_lexeme := (if neg then [45] else []) ++ ds in
      let '(frac, s2) :=
        match match_frac s1 with
        | Some (f, r) => (f, r)
        | None => ([], s1)
        end in
      let '(exp, s3) :=
        match match_exp s2 with
        | Some (e, r) => (e, r)
        | None => ([], s2)
        end in
      match frac, exp with
      | [], [] =>
          Some (JInt (if neg then - digits_value ds else digits_value ds)%Z, s3)
      | _, _ => Some (JFloat (int_lexeme ++ frac ++ exp), s3)
      end
  end.

(** The remainder of [s] after the literal [lit], when [s] starts
    with it. *)
Fixpoint after_prefix (lit s : pystr) : option pystr :=
  match lit, s with
  | [], _ => Some s
  | a :: lit', b :: s' => if a =? b then after_prefix lit' s' else None
  | _ :: _, [] => None
  end.

Definition match_literal (s : pystr) : option (json * pystr) :=
  match after_prefix (py "null") s with
  | Some r => Some (JNull, r)
  | None =>
  match after_prefix (py "true") s with
  | Some r => Some (JBool true, r)
  | None =>
  match after_prefix (py "false") s with
  | Some r => Some (JBool false, r)
  | None =>
  match after_prefix (py "NaN") s with
  | Some r => Some (JFloat (py "NaN"), r)
  | None =>
  match after_prefix (py "Infinity") s with
  | Some r => Some (JFloat (py "Infinity"), r)
  | None =>
  match after_prefix (py "-Infinity") s with
  | Some r => Some (JFloat (py "-Infinity"), r)
  | None => match_number s
  end end end end end end.

(** [scan_once]: one JSON term at the head of [s].  [fuel] bounds the
    number of nested calls; [loads] gives more than the text can use.
    The recursion limit of the interpreter, which a text nested some
    thousand levels deep exceeds, is not modelled. *)
Fixpoint scan_once (fuel : nat) (s : pystr) {struct fuel}
  : option (json * pystr) :=
  match fuel with
  | O => None
  | S fuel' =>
      match s with
      | [] => None
      | c :: s1 =>
          if c =? 34 then
            match scanstring s1 with
            | Some (str, rest) => Some (JStr str, rest)
            | None => None
            end
          else if c =? 123 then
            match skip_ws s1 with
            | [] => None
            | (c2 :: s2) as s1' =>
                if c2 =? 125 then Some (JObj [], s2)
                else match parse_members fuel' s1' with
                     | Some (ms, rest) => Some (JObj ms, rest)
                     | None => None
                     end
            end
          else if c =? 91 then
            match skip_ws s1 with
            | [] => None
            | (c2 :: s2) as s1' =>
                if c2 =? 93 then Some (JArr [], s2)
                else match parse_items fuel' s1' with
                     | Some (vs, rest) => Some (JArr vs, rest)
                     | None => None
                     end
            end
          else match_literal s
      end
  end

(** The members of a non-empty object, from the first key to the
    closing brace. *)
with parse_members (fuel : nat) (s : pystr) {struct fuel}
  : option (list (pystr * json) * pystr) :=
  match fuel with
  | O => None
  | S fuel' =>
      match s with
      | [] => None
      | q :: s1 =>
          if q =? 34 then
            match scanstring s1 with
            | None => None
            | Some (key, s2) =>
                match skip_ws s2 with
                | [] => None
                | colon :: s3 =>
                    if colon =? 58 then
                      match scan_once fuel' (skip_ws s3) with
                      | None => None
                      | Some (v, s4) =>
                          match skip_ws s4 with
                          | [] => None
                          | d :: s5 =>
                              if d =? 125 then Some ([(key, v)], s5)
                              else if d =? 44 then
                                match parse_members fuel' (skip_ws s5) with
                                | Some (ms, rest) => Some ((key, v) :: ms, rest)
                                | None => None
                                end
                              else None
                          end
                      end
                    else None
                end
            end
          else None
      end
  end

(** The items of a non-empty array, from the first item to the
    closing bracket. *)
with parse_items (fuel : nat) (s : pystr) {struct fuel}
  : option (list json * pystr) :=
  match fuel with
  | O => None
  | S fuel' =>
      match scan_once fuel' s with
      | None => None
      | Some (v, s1) =>
          match skip_ws s1 with
          | [] => None
          | d :: s2 =>
              if d =? 93 then Some ([v], s2)
              else if d =? 44 then
                match parse_items fuel' (skip_ws s2) with
                | Some (vs, rest) => Some (v :: vs, rest)
                | None => None
                end
              else None
          end
      end
  end.

(** [json.loads(s)]: [None] stands for [JSONDecodeError]. *)
Definition loads (s : pystr) : option json :=
  match scan_once (S (length s)) (skip_ws s) with
  | Some (v, rest) =>
      match skip_ws rest with
      | [] => Some v
      | _ :: _ => None
      end
  | None => None
  end.

(** Python truth value of a decoded term; [float_truth] is the
    interpreter's reading of a float lexeme. *)
Definition truthy (float_truth : pystr -> bool) (v : json) : bool :=
  match v with
  | JNull => false
  | JBool b => b
  | JInt z => negb (z =? 0)%Z
  | JFloat lexeme => float_truth lexeme
  | JStr s => match s with [] => false | _ => true end
  | JArr items => match items with [] => false | _ => true end
  | JObj members => match members with [] => false | _ => true end
  end.

End Json.

Import Json.

(** ** Exceptions *)

Inductive exn : Type :=
| AttributeError
| TypeError
| KeyError
| JSONDecodeError.

Inductive result (A : Type) : Type :=
| Ok (a : A)
| Raise (e : exn).

Arguments Ok {A} a.
Arguments Raise {A} e.

(** ** [indexing/build_index.py] *)

Module BuildIndex.

Record index_state : Type := mkIndexState {
  inverted_index : gmap pystr (gmap pystr nat);
  doc_lengths : gmap pystr nat;
  total_docs : nat;
  skipped_lines : nat;
  warnings : list nat  (* the line numbers of the [WARN] messages printed *)
}.

Record stats : Type := mkStats {
  language : pystr;
  total_documents : nat;
  stats_skipped_lines : nat;
  vocabulary_size : nat;
  average_doc_length : Q
}.

Definition init_state : index_state :=
  mkIndexState ∅ ∅ 0 0 [].

(** [Counter(tokens)] *)
Definition Counter (tokens : list pystr) : gmap pystr nat :=
  foldl (fun tf t => <[t := S (default 0%nat (tf !! t))]> tf) ∅ tokens.

(** [inverted_index[term][doc_id] = freq] on a [defaultdict(dict)] *)
Definition set_posting (doc_id : pystr) (term : pystr) (freq : nat)
    (inv : gmap pystr (gmap pystr nat)) : gmap pystr (gmap pystr nat) :=
  <[term := <[doc_id := freq]> (default ∅ (inv !! term))]> inv.

(** The lines a text file yields when iterated, with universal
    newlines: each keeps its terminator, read as a line feed. *)
Fixpoint readlines_go (cur : pystr) (s : pystr) : list pystr :=
  match s with
  | [] => match cur with [] => [] | _ => [rev cur] end
  | c :: s' =>
      if c =? 10 then rev (10 :: cur) :: readlines_go [] s'
      else if c =? 13 then
        match s' with
        | c2 :: s'' =>
            if c2 =? 10 then rev (10 :: cur) :: readlines_go [] s''
            else rev (10 :: cur) :: readlines_go [] s'
        | [] => [rev (10 :: cur)]
        end
      else readlines_go (c :: cur) s'
  end.

Definition readlines (text : pystr) : list pystr := readlines_go [] text.

Section WithUnicode.

(** The interpreter's Unicode tables outside ASCII: [str.isalnum] on
    one code point, and [str.lower] on a string that is not pure
    ASCII. *)
Variable uni_alnum : N -> bool.
Variable uni_lower : pystr -> pystr.

(** The class [\w] *)
Definition is_word (c : N) : bool :=
  if is_ascii c then is_ascii_alnum c || (c =? 95) else uni_alnum c.

(** The range [ঀ-৿] *)
Definition is_bangla (c : N) : bool := (2432 <=? c) && (c <=? 2559).

Definition lower (s : pystr) : pystr :=
  if forallb is_ascii s then List.map ascii_lower s else uni_lower s.

Definition tokenize (text : pystr) (language : pystr) : list pystr :=
  let text := strip text in
  let text := if decide (language = py "english") then lower text else text in
  (* remove punctuation (keep Bangla unicode intact) *)
  let text :=
    List.map (fun c => if is_word c || is_space c || is_bangla c then c else 32)
             text in
  split text.

(** One turn of the loop over the lines of the corpus. *)
Definition index_line (language : pystr) (st : index_state)
    (line_no : nat) (line : pystr) : result index_state :=
  let line := strip line in
  match line with
  | [] => Ok st
  | _ :: _ =>
      match loads line with
      | None =>
          Ok (mkIndexState (inverted_index st) (doc_lengths st) (total_docs st)
                (S (skipped_lines st)) (warnings st ++ [line_no]))
      | Some (JObj members) =>
          match default (JStr []) (dict_get (py "body") members) with
          | JStr text =>
              let tokens := tokenize text language in
              let doc_id := str_of_nat (total_docs st) in
              let tf := Counter tokens in
              Ok (mkIndexState
                    (map_fold (set_posting doc_id) (inverted_index st) tf)
                    (<[doc_id := length tokens]> (doc_lengths st))
                    (S (total_docs st))
                    (skipped_lines st) (warnings st))
          | _ => Raise AttributeError   (* [text.strip()] on a non-string *)
          end
      | Some _ => Raise AttributeError  (* [doc.get] on a non-dict *)
      end
  end.

Fixpoint index_lines (language : pystr) (st : index_state)
    (line_no : nat) (lines : list pystr) : result index_state :=
  match lines with
  | [] => Ok st
  | line :: rest =>
      match index_line language st line_no line with
      | Ok st' => index_lines language st' (S line_no) rest
      | Raise e => Raise e
      end
  end.

Definition sum_values (m : gmap pystr nat) : nat :=
  map_fold (fun _ n acc => (n + acc)%nat) 0%nat m.

Definition make_stats (language : pystr) (st : index_state) : stats :=
  mkStats language (total_docs st) (skipped_lines st)
    (size (inverted_index st))
    (match total_docs st with
     | O => 0%Q
     | S _ => Qmake (Z.of_nat (sum_values (doc_lengths st)))
                    (Pos.of_nat (total_docs st))
     end).

(** [build_index(language, corpus_path)], on the text of the corpus
    file. *)
Definition build_index (language : pystr) (corpus : pystr)
  : result (gmap pystr (gmap pystr nat) * gmap pystr nat * stats * list nat) :=
  match index_lines language init_state 1 (readlines corpus) with
  | Ok st =>
      Ok (inverted_index st, doc_lengths st, make_stats language st, warnings st)
  | Raise e => Raise e
  end.

End WithUnicode.

End BuildIndex.

(** ** What the sequential spiders share *)

Module Crawl.

(** How one [subprocess.run(['curl', ...])] ends. *)
Inductive curl_result : Type :=
| CurlRaise
| CurlExit (returncode : Z) (stdout : pystr).

(** The place in [crawl] a request is made from. *)
Inductive call_site : Type :=
| Discover   (* bootstrap state: category metadata, build id *)
| Listing    (* a page of candidates *)
| Detail.    (* one article *)

(** What a run does, in order.  [EvCount] records the two counters
    each time they are incremented, [EvSeen] is [seen_urls.add(url)],
    [EvCategory] is the start of a category and [EvSay] is a [print]
    that announces why listing stops. *)
Inductive event : Type :=
| EvFetch (site : call_site) (url : pystr)
| EvOpen
| EvWrite (text : pystr)
| EvFlush
| EvClose
| EvCategory (slug : pystr)
| EvSeen (url : pystr)
| EvCount (category_collected collected_count : Z)
| EvSay (msg : pystr).

#[global] Instance call_site_eq_dec : EqDecision call_site.
Proof. solve_decision. Defined.

(** The network, as the spider meets it: the answer depends on the
    request and on how many requests came before. *)
Definition network : Type := nat -> pystr -> curl_result.

Record state : Type := mkState {
  clock : nat;             (* requests made so far *)
  trace : list event;
  collected_count : Z      (* [self.collected_count] *)
}.

Definition emit (e : event) (st : state) : state :=
  mkState (clock st) (trace st ++ [e]) (collected_count st).

(** [fetch_url]: one run of curl, no retry. *)
Definition fetch_url (net : network) (site : call_site) (url : pystr)
    (st : state) : option pystr * state :=
  let st' := mkState (S (clock st)) (trace st ++ [EvFetch site url])
                     (collected_count st) in
  match net (clock st) url with
  | CurlRaise => (None, st')
  | CurlExit returncode stdout =>
      if (returncode =? 0)%Z then (Some stdout, st') else (None, st')
  end.

(** [not content] *)
Definition no_content (content : option pystr) : bool :=
  match content with
  | None | Some [] => true
  | Some (_ :: _) => false
  end.

(** How a run, or a part of one, ends. *)
Inductive outcome : Type :=
| Finished
| Raised (e : exn)
| OutOfFuel.   (* still running when the bound of the model is reached *)

(** A text file opened for writing: what has reached the file, and
    what [write] has accepted since the last [flush]. *)
Record file : Type := mkFile {
  disk : pystr;
  buffer : pystr
}.

Definition file_step (f : file) (e : event) : file :=
  match e with
  | EvOpen => mkFile [] []
  | EvWrite text => mkFile (disk f) (buffer f ++ text)
  | EvFlush | EvClose => mkFile (disk f ++ buffer f) []
  | _ => f
  end.

Definition file_after (f : file) (tr : list event) : file :=
  foldl file_step f tr.

(** [s.split('/')[-1]] *)
Fixpoint last_segment_go (cur s : pystr) : pystr :=
  match s with
  | [] => rev cur
  | c :: s' =>
      if c =? 47 then last_segment_go [] s' else last_segment_go (c :: cur) s'
  end.

Definition last_segment (s : pystr) : pystr := last_segment_go [] s.

(** [x if x.startswith('http') else base + x] *)
Definition absolute (base x : pystr) : pystr :=
  if is_prefix (py "http") x then x else base ++ x.

Definition is_write (e : event) : bool :=
  match e with EvWrite _ => true | _ => false end.

Definition is_fetch (site : call_site) (e : event) : bool :=
  match e with
  | EvFetch site' _ => bool_decide (site' = site)
  | _ => false
  end.

End Crawl.

(** ** [spiders/daily_sun_crawler.py] *)

Module DailySun.
Import Crawl.

Definition base_url : pystr := py "https://www.daily-sun.com".

Definition category_urls : list pystr :=
  [ py "https://www.daily-sun.com/law-&-Order";
    py "https://www.daily-sun.com/sports";
    py "https://www.daily-sun.com/diplomacy";
    py "https://www.daily-sun.com/business";
    py "https://www.daily-sun.com/sci-tech";
    py "https://www.daily-sun.com/arts-culture" ].

(** The dict [fetch_article] returns. *)
Definition make_article (url title date category_slug body_text : pystr) : json :=
  JObj [ (py "url", JStr url);
         (py "title", JStr title);
         (py "date", JStr date);
         (py "category", JStr category_slug);
         (py "body", JStr body_text);
         (py "tokens", JArr (List.map JStr (split body_text)));
         (py "language", JStr (py "en")) ].

(** The variables of one category in [crawl]. *)
Record locals : Type := mkLocals {
  category_collected : Z;
  page : Z;
  seen_urls : gset pystr;
  last_id : option pystr
}.

(** How the body of a [for] loop ends. *)
Inductive flow : Type :=
| Next      (* falls through, or [continue] *)
| Break
| Except.   (* raises into the enclosing [try] *)

(** An f-string field holding [None] or a string. *)
Definition fmt_opt (x : option pystr) : pystr :=
  match x with
  | Some s => s
  | None => py "None"
  end.

Section WithWorld.

Variable net : network.

(** The extraction heuristics, applied to a fetched page:
    - [re_category_id]: group 1 of [categorynews/(\d+)/];
    - [re_last_id]: group 1 of [lastID=(\d+)];
    - [soup_hrefs]: the [href] of every [a] element that has one;
    - [re_id_segment]: group 1 of [/(\d+)/] in a URL;
    - [detail_title], [detail_date]: title and date of an article page;
    - [detail_body_text]: the stripped text of the body element, empty
      when there is none. *)
Variable re_category_id : pystr -> option pystr.
Variable re_last_id : pystr -> option pystr.
Variable soup_hrefs : pystr -> list pystr.
Variable re_id_segment : pystr -> option pystr.
Variable detail_title : pystr -> pystr.
Variable detail_date : pystr -> pystr.
Variable detail_body_text : pystr -> pystr.

(** The interpreter's truth value of a float, from its lexeme. *)
Variable float_truth : pystr -> bool.

(** [self.target_count] *)
Variable target_count : Z.

Definition get_category_metadata (category_url : pystr) (st : state)
  : option pystr * option pystr * state :=
  let '(content, st) := fetch_url net Discover category_url st in
  match content with
  | None | Some [] => (None, None, st)
  | Some content => (re_category_id content, re_last_id content, st)
  end.

Definition fetch_article (url category_slug : pystr) (st : state)
  : option json * state :=
  let '(content, st) := fetch_url net Detail url st in
  match content with
  | None | Some [] => (None, st)
  | Some content =>
      let body_text := join_space (split (detail_body_text content)) in
      (Some (make_article url (detail_title content) (detail_date content)
                          category_slug body_text), st)
  end.

(** [article and article['body']] *)
Definition has_body (article : option json) : bool :=
  match article with
  | Some (JObj members) =>
      match dict_get (py "body") members with
      | Some v => truthy float_truth v
      | None => false
      end
  | _ => false
  end.

(** The statements under [if article and article['body']], up to
    [seen_urls.add(full_url)]. *)
Definition accept (article : json) (full_url : pystr) (loc : locals)
    (st : state) : locals * state :=
  let st := emit (EvWrite (dumps article ++ [10])) st in
  let st := emit EvFlush st in
  let loc := mkLocals (category_collected loc + 1)%Z (page loc)
                      ({[ full_url ]} ∪ seen_urls loc) (last_id loc) in
  let total := (collected_count st + 1)%Z in
  let st := mkState (clock st)
                    (trace st ++ [EvCount (category_collected loc) total;
                                  EvSeen full_url])
                    total in
  (loc, st).

(** One link of the category page. *)
Definition scan_link (category_slug href : pystr) (loc : locals) (st : state)
  : flow * locals * state :=
  if contains (47 :: category_slug ++ [47]) href
     && bool_decide (is_Some (re_id_segment href))
  then
    let full_url := absolute base_url href in
    if bool_decide (full_url ∈ seen_urls loc) then (Next, loc, st)
    else if (target_count <=? category_collected loc)%Z then (Break, loc, st)
    else
      let '(article, st) := fetch_article full_url category_slug st in
      match article with
      | Some doc =>
          if has_body article then
            let '(loc, st) := accept doc full_url loc st in
            (Next,
             mkLocals (category_collected loc) (page loc) (seen_urls loc)
                      (re_id_segment full_url),
             st)
          else (Next, loc, st)
      | None => (Next, loc, st)
      end
  else (Next, loc, st).

Fixpoint scan_links (category_slug : pystr) (hrefs : list pystr)
    (loc : locals) (st : state) : locals * state :=
  match hrefs with
  | [] => (loc, st)
  | href :: rest =>
      match scan_link category_slug href loc st with
      | (Next, loc, st) => scan_links category_slug rest loc st
      | (_, loc, st) => (loc, st)
      end
  end.

(** One item of an AJAX batch. *)
Definition scan_item (category_slug : pystr) (item : json) (has_new : bool)
    (loc : locals) (st : state) : flow * bool * locals * state :=
  if (target_count <=? category_collected loc)%Z then (Break, has_new, loc, st)
  else
    match item with
    | JObj members =>
        let item_url := default JNull (dict_get (py "url") members) in
        if negb (truthy float_truth item_url) then (Next, has_new, loc, st)
        else
          match item_url with
          | JStr item_url =>
              let full_url := absolute base_url item_url in
              if bool_decide (full_url ∈ seen_urls loc)
              then (Next, has_new, loc, st)
              else
                let '(article, st) := fetch_article full_url category_slug st in
                match article with
                | Some doc =>
                    if has_body article then
                      let '(loc, st) := accept doc full_url loc st in
                      (Next, true, loc, st)
                    else (Next, true, loc, st)
                | None => (Next, true, loc, st)
                end
          | _ => (Except, has_new, loc, st)   (* no [startswith] *)
          end
    | _ => (Except, has_new, loc, st)         (* no [get] *)
    end.

Fixpoint scan_items (category_slug : pystr) (items : list json)
    (has_new : bool) (loc : locals) (st : state)
  : flow * bool * locals * state :=
  match items with
  | [] => (Next, has_new, loc, st)
  | item :: rest =>
      match scan_item category_slug item has_new loc st with
      | (Next, has_new, loc, st) => scan_items category_slug rest has_new loc st
      | r => r
      end
  end.

Definition ajax_url (cat_id : pystr) (loc : locals) : pystr :=
  base_url ++ py "/ajax/load/categorynews/" ++ cat_id ++ py "/20/"
    ++ str_of_Z (page loc) ++ py "/20?lastID=" ++ fmt_opt (last_id loc).

(** The [while category_collected < self.target_count] loop; [fuel]
    bounds the number of pages the model follows. *)
Fixpoint ajax_loop (fuel : nat) (category_slug cat_id : pystr)
    (loc : locals) (st : state) : outcome * locals * state :=
  if (target_count <=? category_collected loc)%Z then (Finished, loc, st)
  else
    match fuel with
    | O => (OutOfFuel, loc, st)
    | S fuel' =>
        let '(resp, st) := fetch_url net Listing (ajax_url cat_id loc) st in
        match resp with
        | None | Some [] =>
            (Finished, loc, emit (EvSay (py "  Empty response from AJAX.")) st)
        | Some resp =>
            match loads resp with
            | None =>
                (Finished, loc,
                 emit (EvSay (py "  Failed to parse JSON response.")) st)
            | Some data =>
                if negb (truthy float_truth data)
                then (Finished, loc, emit (EvSay (py "  No more data.")) st)
                else
                  match data with
                  | JArr items =>
                      match scan_items category_slug items false loc st with
                      | (Except, _, loc, st) =>
                          (Finished, loc,
                           emit (EvSay (py "  Error in AJAX loop")) st)
                      | (_, false, loc, st) =>
                          (Finished, loc,
                           emit (EvSay (py "  No new articles found in this batch.")) st)
                      | (_, true, loc, st) =>
                          ajax_loop fuel' category_slug cat_id
                            (mkLocals (category_collected loc) (page loc + 1)%Z
                                      (seen_urls loc) (last_id loc))
                            st
                      end
                  | _ =>
                      (* not a list: iterating it, or its first element,
                         raises *)
                      (Finished, loc,
                       emit (EvSay (py "  Error in AJAX loop")) st)
                  end
            end
        end
    end.

(** The body of [for cat_url in self.category_urls]. *)
Definition crawl_category (fuel : nat) (cat_url : pystr) (st : state)
  : outcome * state :=
  let category_slug := last_segment cat_url in
  let st := emit (EvCategory category_slug) st in
  let '(cat_id, last_id, st) := get_category_metadata cat_url st in
  match cat_id with
  | None | Some [] => (Finished, st)
  | Some cat_id =>
      let '(content, st) := fetch_url net Listing cat_url st in
      match content with
      | None => (Raised TypeError, st)   (* [BeautifulSoup(None, ...)] *)
      | Some content =>
          let loc := mkLocals 0 1 ∅ last_id in
          let '(loc, st) :=
            scan_links category_slug (soup_hrefs content) loc st in
          let '(o, _, st) := ajax_loop fuel category_slug cat_id loc st in
          (o, st)
      end
  end.

Fixpoint crawl_categories (fuel : nat) (cat_urls : list pystr) (st : state)
  : outcome * state :=
  match cat_urls with
  | [] => (Finished, st)
  | cat_url :: rest =>
      match crawl_category fuel cat_url st with
      | (Finished, st) => crawl_categories fuel rest st
      | r => r
      end
  end.

(** [crawl]: the [with open(self.output_file, 'w')] block. *)
Definition crawl (fuel : nat) : outcome * state :=
  let st := emit EvOpen (mkState 0 [] 0) in
  match crawl_categories fuel category_urls st with
  | (OutOfFuel, st) => (OutOfFuel, st)
  | (o, st) => (o, emit EvClose st)
  end.

End WithWorld.

End DailySun.

(** ** [spiders/kalerkantho_crawler.py] *)

Module KalerKantho.
Import Crawl.

Definition base_url : pystr := py "https://www.kalerkantho.com".

Definition known_build_id : pystr := py "kk-build-0.5.95".

Definition categories : list pystr :=
  [ py "national"; py "entertainment"; py "Islamic-lifestylie";
    py "Politics"; py "lifestyle" ].

(** Target per category *)
Definition category_target : Z := 150.

(** [v.get(k, dflt)]: only a dict has the method. *)
Definition py_get (v : json) (k : pystr) (dflt : json) : result json :=
  match v with
  | JObj members => Ok (default dflt (dict_get k members))
  | _ => Raise AttributeError
  end.

(** The format [{n:02d}] on a day or a month. *)
Definition fmt_02d (n : Z) : pystr :=
  if ((0 <=? n) && (n <? 10))%Z then 48 :: str_of_Z n else str_of_Z n.

(** The dict [fetch_article] returns. *)
Definition make_article (public_url : pystr) (title : json) (date_str : pystr)
    (category_slug : json) (body_text : pystr) : json :=
  JObj [ (py "url", JStr public_url);
         (py "title", title);
         (py "date", JStr date_str);
         (py "category", category_slug);
         (py "body", JStr body_text);
         (py "tokens", JArr (List.map JStr (split body_text)));
         (py "language", JStr (py "bn")) ].

Inductive flow : Type :=
| Next
| Break.

Section WithWorld.

Variable net : network.

(** Library behaviour the spider relies on:
    - [re_build_id]: group 1 of ["buildId":"(.*?)"] in the homepage;
    - [strptime]: year, month and day of a ["%Y-%m-%d %H:%M:%S"] date,
      [None] for [ValueError];
    - [soup_text]: the text of an HTML fragment without its scripts
      and styles;
    - [py_str]: how an f-string renders a decoded term;
    - [float_truth]: the truth value of a float, from its lexeme. *)
Variable re_build_id : pystr -> option pystr.
Variable strptime : pystr -> option (Z * Z * Z).
Variable soup_text : pystr -> pystr.
Variable py_str : json -> pystr.
Variable float_truth : pystr -> bool.

Definition get_build_id (st : state) : pystr * state :=
  let '(content, st) := fetch_url net Discover base_url st in
  match content with
  | None | Some [] => (known_build_id, st)
  | Some content =>
      if contains (py "Just a moment") content then (known_build_id, st)
      else match re_build_id content with
           | Some build_id => (build_id, st)
           | None => (known_build_id, st)
           end
  end.

Definition clean_html (html_content : json) : result pystr :=
  if negb (truthy float_truth html_content) then Ok []
  else match html_content with
       | JStr html => Ok (join_space (split (soup_text html)))
       | _ => Raise TypeError   (* [BeautifulSoup] on a non-string *)
       end.

Definition fetch_article (build_id : pystr) (category_slug date_str n_id : json)
    (st : state) : result (option json) * state :=
  match date_str with
  | JStr date_str =>
      match strptime date_str with
      | None => (Ok None, st)
      | Some (year, month, day) =>
          let path :=
            py "/online/" ++ py_str category_slug ++ 47 :: str_of_Z year
              ++ 47 :: fmt_02d month ++ 47 :: fmt_02d day
              ++ 47 :: py_str n_id in
          let url :=
            base_url ++ py "/_next/data/" ++ build_id ++ path ++ py ".json" in
          let '(content, st) := fetch_url net Detail url st in
          match content with
          | None | Some [] => (Ok None, st)
          | Some content =>
              match loads content with
              | None => (Ok None, st)
              | Some data =>
                  match py_get data (py "pageProps") (JObj []) with
                  | Raise e => (Raise e, st)
                  | Ok page_props =>
                  match py_get page_props (py "details") (JObj []) with
                  | Raise e => (Raise e, st)
                  | Ok details =>
                      if negb (truthy float_truth details) then (Ok None, st)
                      else
                        match py_get details (py "n_head") (JStr []) with
                        | Raise e => (Raise e, st)
                        | Ok title =>
                        match py_get details (py "n_details") (JStr []) with
                        | Raise e => (Raise e, st)
                        | Ok body_html =>
                        match clean_html body_html with
                        | Raise e => (Raise e, st)
                        | Ok body_text =>
                            (Ok (Some (make_article (base_url ++ path) title
                                         date_str category_slug body_text)),
                             st)
                        end end end
                  end end
              end
          end
      end
  | _ => (Raise TypeError, st)   (* [strptime] on a non-string *)
  end.

(** The statements under [if article_doc]. *)
Definition accept (article_doc : json) (category_collected : Z) (st : state)
  : Z * state :=
  let st := emit (EvWrite (dumps article_doc ++ [10])) st in
  let category_collected := (category_collected + 1)%Z in
  let total := (collected_count st + 1)%Z in
  (category_collected,
   mkState (clock st) (trace st ++ [EvCount category_collected total]) total).

(** One item of [news_list]. *)
Definition scan_item (build_id category : pystr) (item : json)
    (category_collected : Z) (st : state) : result flow * Z * state :=
  if (category_target <=? category_collected)%Z
  then (Ok Break, category_collected, st)
  else
    match item with
    | JObj members =>
        let n_id := default JNull (dict_get (py "n_id") members) in
        let start_at := default JNull (dict_get (py "start_at") members) in
        let cat_name := default JNull (dict_get (py "cat_name") members) in
        match (if truthy float_truth cat_name
               then py_get cat_name (py "slug") JNull
               else Ok JNull) with
        | Raise e => (Raise e, category_collected, st)
        | Ok cat_slug =>
            let current_slug :=
              if truthy float_truth cat_slug then cat_slug else JStr category in
            if truthy float_truth n_id && truthy float_truth start_at then
              match fetch_article build_id current_slug start_at n_id st with
              | (Raise e, st) => (Raise e, category_collected, st)
              | (Ok None, st) => (Ok Next, category_collected, st)
              | (Ok (Some article_doc), st) =>
                  let '(category_collected, st) :=
                    accept article_doc category_collected st in
                  (Ok Next, category_collected, st)
              end
            else (Ok Next, category_collected, st)
        end
    | _ => (Raise AttributeError, category_collected, st)
    end.

Fixpoint scan_items (build_id category : pystr) (items : list json)
    (category_collected : Z) (st : state) : result flow * Z * state :=
  match items with
  | [] => (Ok Next, category_collected, st)
  | item :: rest =>
      match scan_item build_id category item category_collected st with
      | (Ok Next, category_collected, st) =>
          scan_items build_id category rest category_collected st
      | r => r
      end
  end.

Definition list_url (build_id category : pystr) (page : Z) : pystr :=
  base_url ++ py "/_next/data/" ++ build_id ++ py "/online/" ++ category
    ++ py ".json?page=" ++ str_of_Z page.

(** The [while category_collected < category_target] loop; [fuel]
    bounds the number of pages the model follows. *)
Fixpoint list_loop (fuel : nat) (build_id category : pystr) (page : Z)
    (category_collected : Z) (st : state) : outcome * Z * state :=
  if (category_target <=? category_collected)%Z
  then (Finished, category_collected, st)
  else
    match fuel with
    | O => (OutOfFuel, category_collected, st)
    | S fuel' =>
        let '(content, st) :=
          fetch_url net Listing (list_url build_id category page) st in
        match content with
        | None | Some [] =>
            (Finished, category_collected,
             emit (EvSay (py "Failed to fetch category page")) st)
        | Some content =>
            match loads content with
            | None =>
                (Finished, category_collected,
                 emit (EvSay (py "Failed to parse category JSON")) st)
            | Some data =>
                match py_get data (py "pageProps") (JObj []) with
                | Raise e => (Raised e, category_collected, st)
                | Ok page_props =>
                match py_get page_props (py "newsData") (JArr []) with
                | Raise e => (Raised e, category_collected, st)
                | Ok news_list =>
                    if negb (truthy float_truth news_list)
                    then (Finished, category_collected,
                          emit (EvSay (py "No more news in category")) st)
                    else
                      match news_list with
                      | JArr items =>
                          match scan_items build_id category items
                                           category_collected st with
                          | (Raise e, category_collected, st) =>
                              (Raised e, category_collected, st)
                          | (Ok _, category_collected, st) =>
                              list_loop fuel' build_id category (page + 1)%Z
                                        category_collected st
                          end
                      | JObj _ | JStr _ =>
                          (* the items are strings: no [get] *)
                          (Raised AttributeError, category_collected, st)
                      | _ =>
                          (* not iterable *)
                          (Raised TypeError, category_collected, st)
                      end
                end end
            end
        end
    end.

Fixpoint crawl_categories (fuel : nat) (build_id : pystr)
    (cats : list pystr) (st : state) : outcome * state :=
  match cats with
  | [] => (Finished, st)
  | category :: rest =>
      let st := emit (EvCategory category) st in
      match list_loop fuel build_id category 1 0 st with
      | (Finished, _, st) => crawl_categories fuel build_id rest st
      | (o, _, st) => (o, st)
      end
  end.

(** [crawl]: [get_build_id], which never fails, then the
    [with open(self.output_file, 'w')] block. *)
Definition crawl (fuel : nat) : outcome * state :=
  let '(build_id, st) := get_build_id (mkState 0 [] 0) in
  let st := emit EvOpen st in
  match crawl_categories fuel build_id categories st with
  | (OutOfFuel, st) => (OutOfFuel, st)
  | (o, st) => (o, emit EvClose st)
  end.

End WithWorld.

End KalerKantho.

(** ** [spiders/prothomalo_bangladesh.py] *)

Module ProthomAlo.

Definition API_BASE : pystr :=
  py "https://www.prothomalo.com/api/v1/collections/bangladesh-all".

Definition limit : Z := 10.
Definition max_items : Z := 500.

Inductive callback : Type :=
| ParseApi
| ParseArticle.

(** What a callback yields: a scraped item, which the feed export
    writes out, or a request to schedule. *)
Inductive output : Type :=
| Item (record : json)
| Request (url : pystr) (cb : callback) (meta : list (pystr * json)).

(** The attributes of the spider that change. *)
Record spider : Type := mkSpider {
  offset : Z;
  items_seen : Z
}.

Record response : Type := mkResponse {
  resp_url : pystr;
  resp_text : pystr;
  resp_meta : list (pystr * json)
}.

Definition words (headline : json) : Z :=
  match headline with
  | JStr s => Z.of_nat (length (split s))
  | _ => 0
  end.

Definition headline_only (title author : json) : json :=
  JObj [ (py "title", title);
         (py "body", JNull);
         (py "url", JNull);
         (py "date", JNull);
         (py "language", JStr (py "bn"));
         (py "author", author);
         (py "tokens", JInt (words title));
         (py "section", JStr (py "bangladesh"));
         (py "subcategory", JStr (py "bangladesh"));
         (py "source", JStr (py "Prothom Alo"));
         (py "content_type", JStr (py "headline-only")) ].

Definition full_article (title : json) (body url : pystr) (date author : json)
    (subcategory : json) : json :=
  JObj [ (py "title", title);
         (py "body", JStr body);
         (py "url", JStr url);
         (py "date", date);
         (py "language", JStr (py "bn"));
         (py "author", author);
         (py "tokens", JInt (Z.of_nat (length (split body))));
         (py "section", JStr (py "bangladesh"));
         (py "subcategory", subcategory);
         (py "source", JStr (py "Prothom Alo"));
         (py "content_type", JStr (py "full-article")) ].

(** [self.next_api_request()] *)
Definition next_api_request (sp : spider) : output * spider :=
  (Request (API_BASE ++ py "?item-type=story&offset=" ++ str_of_Z (offset sp)
              ++ py "&limit=" ++ str_of_Z limit)
           ParseApi [],
   mkSpider (offset sp + limit) (items_seen sp)).

Section WithWorld.

(** Library behaviour the spider relies on:
    - [urljoin]: [response.urljoin], from the URL of the response;
    - [css_paragraphs]: the texts [div.story-element-text p::text];
    - [css_time]: the attribute [time::attr(datetime)], if any;
    - [css_headlines]: the texts [span.tilte-no-link-parent::text];
    - [css_excerpts]: text and [href] of each [a.excerpt];
    - [float_truth]: the truth value of a float, from its lexeme. *)
Variable urljoin : pystr -> pystr -> pystr.
Variable css_paragraphs : pystr -> list pystr.
Variable css_time : pystr -> option pystr.
Variable css_headlines : pystr -> list pystr.
Variable css_excerpts : pystr -> list (option pystr * option pystr).
Variable float_truth : pystr -> bool.

Definition py_get (v : json) (k : pystr) (dflt : json) : result json :=
  match v with
  | JObj members => Ok (default dflt (dict_get k members))
  | _ => Raise AttributeError
  end.

(** [item["headline"][0].strip()] when [item.get("headline")] holds,
    [None] otherwise. *)
Definition headline_of (item : json) : result json :=
  match py_get item (py "headline") JNull with
  | Raise e => Raise e
  | Ok h =>
      if negb (truthy float_truth h) then Ok JNull
      else match h with
           | JArr (JStr s :: _) => Ok (JStr (strip s))
           | JArr _ => Raise AttributeError      (* no [strip] *)
           | JStr (c :: _) => Ok (JStr (strip [c]))
           | JObj _ => Raise KeyError
           | _ => Raise TypeError                (* not subscriptable *)
           end
  end.

(** One entry of [items] in [parse_api], after the test on
    [self.items_seen]. *)
Definition scan_entry (resp : response) (entry : json) (sp : spider)
  : result (output * spider) :=
  match py_get entry (py "story") (JObj []) with
  | Raise e => Raise e
  | Ok story =>
  match py_get entry (py "item") (JObj []) with
  | Raise e => Raise e
  | Ok item =>
  match headline_of item with
  | Raise e => Raise e
  | Ok headline =>
  match py_get story (py "url") JNull with
  | Raise e => Raise e
  | Ok story_path =>
  match py_get story (py "author-name") JNull with
  | Raise e => Raise e
  | Ok author =>
      let sp := mkSpider (offset sp) (items_seen sp + 1) in
      if negb (truthy float_truth story_path)
      then Ok (Item (headline_only headline author), sp)
      else match story_path with
           | JStr path =>
               Ok (Request (urljoin (resp_url resp) path) ParseArticle
                     [ (py "title", headline); (py "author", author);
                       (py "subcategory", JStr (py "bangladesh")) ],
                   sp)
           | _ => Raise TypeError
           end
  end end end end end.

(** The generator [parse_api], from the [for] loop on: what it yields,
    how it ends, and the spider afterwards. *)
Fixpoint scan_entries (resp : response) (entries : list json) (sp : spider)
  : list output * option exn * spider :=
  match entries with
  | [] =>
      let '(req, sp) := next_api_request sp in ([req], None, sp)
  | entry :: rest =>
      if (max_items <=? items_seen sp)%Z then ([], None, sp)
      else match scan_entry resp entry sp with
           | Raise e => ([], Some e, sp)
           | Ok (out, sp) =>
               let '(outs, e, sp) := scan_entries resp rest sp in
               (out :: outs, e, sp)
           end
  end.

Definition parse_api (resp : response) (sp : spider)
  : list output * option exn * spider :=
  match loads (resp_text resp) with
  | None => ([], Some JSONDecodeError, sp)
  | Some data =>
      match py_get data (py "items") (JArr []) with
      | Raise e => ([], Some e, sp)
      | Ok items =>
          if negb (truthy float_truth items) then ([], None, sp)
          else match items with
               | JArr entries => scan_entries resp entries sp
               | JObj _ | JStr _ =>
                   (* the entries are strings: no [get] *)
                   if (max_items <=? items_seen sp)%Z then ([], None, sp)
                   else ([], Some AttributeError, sp)
               | _ => ([], Some TypeError, sp)   (* not iterable *)
               end
      end
  end.

Definition meta_get (resp : response) (k : pystr) : json :=
  default JNull (dict_get k (resp_meta resp)).

Definition opt_str (x : option pystr) : json :=
  match x with
  | Some s => JStr s
  | None => JNull
  end.

Definition parse_article (resp : response) : list output :=
  let paragraphs := css_paragraphs (resp_text resp) in
  let body :=
    join_space
      (List.filter (fun p => match p with [] => false | _ => true end)
                   (List.map strip paragraphs)) in
  [ Item (full_article (meta_get resp (py "title")) body (resp_url resp)
            (opt_str (css_time (resp_text resp)))
            (meta_get resp (py "author"))
            (meta_get resp (py "subcategory"))) ].

(** The headline-only items of the section page. *)
Fixpoint parse_headlines (titles : list pystr) (sp : spider)
  : list output * spider :=
  match titles with
  | [] => ([], sp)
  | title :: rest =>
      match strip title with
      | [] => parse_headlines rest sp
      | title =>
          let sp := mkSpider (offset sp) (items_seen sp + 1) in
          let '(outs, sp) := parse_headlines rest sp in
          (Item (headline_only (JStr title) JNull) :: outs, sp)
      end
  end.

(** The linked articles of the section page. *)
Definition parse_excerpts (resp : response)
    (excerpts : list (option pystr * option pystr)) : list output :=
  omap (fun '(title, href) =>
          match title, href with
          | Some (_ :: _ as title), Some (_ :: _ as href) =>
              Some (Request (urljoin (resp_url resp) href) ParseArticle
                      [ (py "title", JStr (strip title));
                        (py "subcategory", JStr (py "bangladesh")) ])
          | _, _ => None
          end) excerpts.

Definition parse (resp : response) (sp : spider) : list output * spider :=
  let '(heads, sp) := parse_headlines (css_headlines (resp_text resp)) sp in
  let links := parse_excerpts resp (css_excerpts (resp_text resp)) in
  let '(req, sp) := next_api_request sp in
  (heads ++ links ++ [req], sp).

End WithWorld.

End ProthomAlo.

(** ** [spiders/newage_crawler.py] *)

Module NewAge.

(** *** [fetch_url] *)

(** The [Retry-After] header of a 429 response: absent, a text that
    [int] reads as [wait], or a text on which [int] raises. *)
Inductive retry_after : Type :=
| NoHeader
| Seconds (wait : Z)
| NotANumber.

(** How one attempt goes: [session.get] raises (network error,
    timeout), or a response arrives; its [text] is [None] when reading
    the body raises. *)
Inductive attempt : Type :=
| Throws
| Responds (status : Z) (header : retry_after) (text : option pystr).

Inductive fetch_event : Type :=
| Get (i : nat)            (* the request of attempt [i] *)
| Sleep (seconds : Q).     (* [asyncio.sleep(seconds)] *)

Definition retries : nat := 3.
Definition backoff : Z := 1.

Section Fetch.

(** What the server does at each attempt, and the value
    [random.uniform(0, 1)] takes at each attempt. *)
Variable script : nat -> attempt.
Variable jitter : nat -> Q.

(** The [except Exception] handler of attempt [i]; [rest] is the rest
    of the loop. *)
Definition on_exception (i : nat) (rest : option pystr * list fetch_event)
  : option pystr * list fetch_event :=
  if Nat.eqb i (retries - 1) then (None, [])
  else (fst rest,
        Sleep (inject_Z (backoff * 2 ^ Z.of_nat i) + jitter i)%Q :: snd rest).

(** The turns [i], [i + 1], ... of [for i in range(retries)], [n] of
    them. *)
Fixpoint fetch_from (n i : nat) : option pystr * list fetch_event :=
  match n with
  | O => (None, [])
  | S n' =>
      let rest := fetch_from n' (S i) in
      let '(r, evs) :=
        match script i with
        | Throws => on_exception i rest
        | Responds status header text =>
            if (status =? 429)%Z then
              match header with
              | NotANumber => on_exception i rest
              | NoHeader => (fst rest, Sleep (inject_Z 60) :: snd rest)
              | Seconds wait => (fst rest, Sleep (inject_Z wait) :: snd rest)
              end
            else if (400 <=? status)%Z then on_exception i rest
            else match text with
                 | Some t => (Some t, [])
                 | None => on_exception i rest
                 end
        end in
      (r, Get i :: evs)
  end.

Definition fetch_url : option pystr * list fetch_event :=
  fetch_from retries 0.

End Fetch.

Definition is_get (e : fetch_event) : bool :=
  match e with Get _ => true | Sleep _ => false end.

(** The number of requests sent. *)
Definition attempts (evs : list fetch_event) : nat :=
  length (List.filter is_get evs).

(** The delays slept, in order. *)
Definition delays (evs : list fetch_event) : list Q :=
  omap (fun e => match e with Sleep d => Some d | Get _ => None end) evs.

(** *** [parse_article] and [process_article] *)

Definition make_doc (url title : pystr) (date_str : json) (category body html : pystr)
    (tokens_count : Z) : json :=
  JObj [ (py "url", JStr url);
         (py "title", JStr title);
         (py "date", date_str);
         (py "category", JStr category);
         (py "body", JStr body);
         (py "data", JStr body);
         (py "html", JStr html);
         (py "tokens", JInt tokens_count);
         (py "language", JStr (py "en")) ].

(** [doc["url"]] *)
Definition doc_url (doc : json) : option pystr :=
  match doc with
  | JObj members =>
      match dict_get (py "url") members with
      | Some (JStr url) => Some url
      | _ => None
      end
  | _ => None
  end.

(** Where a [process_article] coroutine stands. *)
Inductive pc : Type :=
| Start                 (* before the early exit *)
| WaitVisit             (* at the first [async with self.lock] *)
| InVisit               (* holds the lock, before [url in self.visited_urls] *)
| Fetching              (* at [await self.fetch_url(session, url)] *)
| WaitSave (doc : json) (* at the second [async with self.lock] *)
| InSave (doc : json)   (* holds the lock, before the test on the count *)
| Saved (doc : json)    (* holds the lock, [save_document] done *)
| Done.

Record task : Type := mkTask {
  task_url : pystr;
  task_category : pystr;
  at_pc : pc
}.

(** [output_file] is the file as the records appended to it, [None]
    while it does not exist; [file_text] is its text. *)
Record state : Type := mkState {
  collected_counts : gmap pystr Z;
  visited_urls : gset pystr;
  output_file : option (list json);
  lock : bool;
  tasks : list task
}.

Definition file_text (f : option (list json)) : pystr :=
  match f with
  | Some docs => flat_map (fun doc => dumps doc ++ [10]) docs
  | None => []
  end.

(** [save_document]: open for appending, write one line, close. *)
Definition save_document (doc : json) (f : option (list json))
  : option (list json) :=
  Some (default [] f ++ [doc]).

Definition holds_lock (p : pc) : bool :=
  match p with
  | InVisit | InSave _ | Saved _ => true
  | _ => false
  end.

Section WithWorld.

(** The extraction heuristics on the HTML of an article: title
    (["No Title"] without an [h1]), date and body; [None] when the
    parser raises.  [re_word_count] is [len(re.findall(r'\w+', body))]. *)
Variable soup_fields : pystr -> option (pystr * json * pystr).
Variable re_word_count : pystr -> Z.

(** [self.target_count] and [self.target_categories] *)
Variable target_count : Z.
Variable target_categories : list pystr.

Definition parse_article (url html category : pystr) : option json :=
  match soup_fields html with
  | None => None
  | Some (title, date_str, body) =>
      if contains (py "Most Popular Outspoken English Daily") title then None
      else if (length body <? 100)%nat then None
      else Some (make_doc url title date_str category body html
                          (re_word_count body))
  end.

(** The category a sitemap URL is filed under in [parse_sitemap]. *)
Fixpoint categorize (cats : list pystr) (url : pystr) : option pystr :=
  match cats with
  | [] => None
  | cat :: rest =>
      if contains (py "/post/" ++ cat ++ [47]) url then Some cat
      else categorize rest url
  end.

(** The coroutines [crawl] creates, from the [loc] entries of the
    sitemaps it could fetch. *)
Definition candidates (sitemaps : list (list pystr)) (cat : pystr) : list pystr :=
  List.filter (fun url => bool_decide (categorize target_categories url = Some cat))
              (concat sitemaps).

Definition crawl_tasks (sitemaps : list (list pystr)) : list task :=
  flat_map (fun cat => List.map (fun url => mkTask url cat Start)
                                (candidates sitemaps cat))
           target_categories.

(** The state in which [crawl] starts the coroutines: counters at
    zero, nothing visited, the previous output file removed. *)
Definition init (ts : list task) : state :=
  mkState (list_to_map (List.map (fun cat => (cat, 0%Z)) target_categories))
          ∅ None false ts.

Definition set_task (i : nat) (t : task) (p : pc) (s : state) : list task :=
  <[ i := mkTask (task_url t) (task_category t) p ]> (tasks s).

(** One coroutine runs from one point to the next.  Any coroutine
    that can move may be the one that does. *)
Inductive step (s : state) : state -> Prop :=
| step_early_exit i t n :
    tasks s !! i = Some t -> at_pc t = Start ->
    collected_counts s !! task_category t = Some n ->
    (target_count <= n)%Z ->
    step s (mkState (collected_counts s) (visited_urls s) (output_file s)
                    (lock s) (set_task i t Done s))
| step_enter i t n :
    tasks s !! i = Some t -> at_pc t = Start ->
    collected_counts s !! task_category t = Some n ->
    (n < target_count)%Z ->
    step s (mkState (collected_counts s) (visited_urls s) (output_file s)
                    (lock s) (set_task i t WaitVisit s))
| step_lock_visit i t :
    tasks s !! i = Some t -> at_pc t = WaitVisit ->
    lock s = false ->
    step s (mkState (collected_counts s) (visited_urls s) (output_file s)
                    true (set_task i t InVisit s))
| step_visited i t :
    tasks s !! i = Some t -> at_pc t = InVisit ->
    task_url t ∈ visited_urls s ->
    step s (mkState (collected_counts s) (visited_urls s) (output_file s)
                    false (set_task i t Done s))
| step_visit i t :
    tasks s !! i = Some t -> at_pc t = InVisit ->
    task_url t ∉ visited_urls s ->
    step s (mkState (collected_counts s) ({[ task_url t ]} ∪ visited_urls s)
                    (output_file s) false (set_task i t Fetching s))
| step_fetch_none i t script jitter :
    tasks s !! i = Some t -> at_pc t = Fetching ->
    match fst (fetch_url script jitter) with
    | Some (_ :: _ as html) =>
        parse_article (task_url t) html (task_category t) = None
    | _ => True
    end ->
    step s (mkState (collected_counts s) (visited_urls s) (output_file s)
                    (lock s) (set_task i t Done s))
| step_fetch_doc i t script jitter c html doc :
    tasks s !! i = Some t -> at_pc t = Fetching ->
    fst (fetch_url script jitter) = Some (c :: html) ->
    parse_article (task_url t) (c :: html) (task_category t) = Some doc ->
    step s (mkState (collected_counts s) (visited_urls s) (output_file s)
                    (lock s) (set_task i t (WaitSave doc) s))
| step_lock_save i t doc :
    tasks s !! i = Some t -> at_pc t = WaitSave doc ->
    lock s = false ->
    step s (mkState (collected_counts s) (visited_urls s) (output_file s)
                    true (set_task i t (InSave doc) s))
| step_full i t doc n :
    tasks s !! i = Some t -> at_pc t = InSave doc ->
    collected_counts s !! task_category t = Some n ->
    (target_count <= n)%Z ->
    step s (mkState (collected_counts s) (visited_urls s) (output_file s)
                    false (set_task i t Done s))
| step_save i t doc n :
    tasks s !! i = Some t -> at_pc t = InSave doc ->
    collected_counts s !! task_category t = Some n ->
    (n < target_count)%Z ->
    step s (mkState (collected_counts s) (visited_urls s)
                    (save_document doc (output_file s))
                    (lock s) (set_task i t (Saved doc) s))
| step_count i t doc n :
    tasks s !! i = Some t -> at_pc t = Saved doc ->
    collected_counts s !! task_category t = Some n ->
    step s (mkState (<[ task_category t := (n + 1)%Z ]> (collected_counts s))
                    (visited_urls s) (output_file s)
                    false (set_task i t Done s)).

(** The states a run of the coroutines [ts] can be in. *)
Inductive reachable (ts : list task) : state -> Prop :=
| reach_init : reachable ts (init ts)
| reach_step s s' : reachable ts s -> step s s' -> reachable ts s'.

End WithWorld.

End NewAge.

(** * The vocabulary of the statements *)

Import PyStr Json Crawl.

(** ** JSON texts *)

(** The text [dumps] writes between the brackets of a list and between
    the braces of a dict. *)
Definition items_text : list json -> pystr :=
  fix go (l : list json) : pystr :=
    match l with
    | [] => []
    | x :: l' => dumps x ++ match l' with [] => [] | _ => 44 :: 32 :: go l' end
    end.

Definition members_text : list (pystr * json) -> pystr :=
  fix go (l : list (pystr * json)) : pystr :=
    match l with
    | [] => []
    | (k, x) :: l' =>
        encode_basestring k ++ 58 :: 32 :: dumps x
          ++ match l' with [] => [] | _ => 44 :: 32 :: go l' end
    end.

(** The values of the records the sequential spiders write: strings
    and lists of strings. *)
Inductive flat : json -> Prop :=
| flat_str s : flat (JStr s)
| flat_arr l : flat (JArr (List.map JStr l)).

(** Nested calls [scan_once] needs to read a flat value back. *)
Definition need (v : json) : nat :=
  match v with
  | JArr l => length l + 2
  | _ => 1
  end.

(** Nested calls [parse_members] needs for the members of a flat
    record. *)
Fixpoint members_need (ms : list (pystr * json)) : nat :=
  match ms with
  | [] => 0
  | (_, v) :: ms' => S (need v + members_need ms')
  end.

(** A code point at which reading a text file does not end a line. *)
Definition no_newline (c : N) : Prop := c ≠ 10 /\ c ≠ 13.

(** ** The lines of a corpus *)

(** The lines of a corpus file, classified by what the code does with
    them: empty once stripped; not decoded by [json.loads]; a record,
    that is a JSON object whose body is absent or a string. *)
Definition blank (line : pystr) : bool :=
  match strip line with [] => true | _ :: _ => false end.

Definition malformed (line : pystr) : bool :=
  negb (blank line) &&
  match loads (strip line) with None => true | Some _ => false end.

Definition body_of (members : list (pystr * json)) : option pystr :=
  match dict_get (py "body") members with
  | None => Some []
  | Some (JStr text) => Some text
  | Some _ => None
  end.

Definition record (line : pystr) : bool :=
  match loads (strip line) with
  | Some (JObj members) => bool_decide (is_Some (body_of members))
  | _ => false
  end.

(** The Unicode tables of an interpreter that knows ASCII only: they
    fix the parameters of the index builder on concrete inputs. *)
Definition ascii_only_alnum (c : N) : bool := false.
Definition ascii_only_lower (s : pystr) : pystr := s.

(** A headline-only record as the Prothom Alo spider writes it: its
    body is [null]. *)
Definition headline_line : pystr :=
  dumps (ProthomAlo.headline_only (JStr (py "x")) JNull) ++ [10].

(** A corpus with fifty records on each side of a line that is not
    JSON. *)
Definition sample_corpus : pystr :=
  let good := dumps (JObj [(py "title", JStr (py "t")); (py "body", JStr (py "one two"))]) ++ [10] in
  concat (replicate 50 good) ++ py "{bad" ++ [10] ++ concat (replicate 50 good).

(** ** Attempts of a fetch *)

Module Retry.
Import NewAge.

(** An attempt after which [fetch_url] of New Age goes on: an
    exception, a status of 400 or more (429 included), or a body that
    cannot be read. *)
Definition fails (a : attempt) : bool :=
  match a with
  | Throws => true
  | Responds status _ text =>
      (400 <=? status)%Z || match text with None => true | Some _ => false end
  end.

Definition is_429 (a : attempt) : bool :=
  match a with
  | Responds status _ _ => (status =? 429)%Z
  | Throws => false
  end.

(** The delay a 429 response asks for, when [int] can read it. *)
Definition wait_429 (h : retry_after) : option Z :=
  match h with
  | NoHeader => Some 60%Z
  | Seconds wait => Some wait
  | NotANumber => None
  end.

Definition steady_jitter (i : nat) : Q := 0%Q.

Definition throws_always (i : nat) : attempt := Throws.

End Retry.

(** ** What a trace shows *)

(** The URLs added to [seen_urls], the lines written and the detail
    requests of a stretch of a run. *)
Definition seen_of (seg : list event) : list pystr :=
  omap (fun e => match e with EvSeen url => Some url | _ => None end) seg.

Definition writes_of (seg : list event) : list pystr :=
  omap (fun e => match e with EvWrite text => Some text | _ => None end) seg.

Definition details_of (seg : list event) : list pystr :=
  omap (fun e => match e with EvFetch Detail url => Some url | _ => None end) seg.

(** [EvCount] never records more than [target] for the category. *)
Definition count_le (target : Z) (e : event) : Prop :=
  match e with
  | EvCount category_collected _ => (category_collected <= target)%Z
  | _ => True
  end.

(** The value of [category_collected] after a stretch of a category
    that starts with the value [c]: the last one recorded. *)
Fixpoint count_after (c : Z) (seg : list event) : Z :=
  match seg with
  | [] => c
  | EvCount c' _ :: rest => count_after c' rest
  | _ :: rest => count_after c rest
  end.

(** Every request for a page of candidates or for an article comes
    while the count is below the target. *)
Fixpoint guarded (target c : Z) (seg : list event) : Prop :=
  match seg with
  | [] => True
  | EvFetch Discover _ :: rest => guarded target c rest
  | EvFetch _ _ :: rest => (c < target)%Z /\ guarded target c rest
  | EvCount c' _ :: rest => guarded target c' rest
  | _ :: rest => guarded target c rest
  end.

(** No article is requested whose URL is in the seen set. *)
Fixpoint fresh (seen : gset pystr) (seg : list event) : Prop :=
  match seg with
  | [] => True
  | EvFetch Detail url :: rest => (url ∉ seen) /\ fresh seen rest
  | EvSeen url :: rest => fresh ({[ url ]} ∪ seen) rest
  | _ :: rest => fresh seen rest
  end.

Definition is_say (e : event) : bool :=
  match e with EvSay _ => true | _ => false end.

(** In the events of one category: nothing follows a report that the
    list has ended, and an article is requested only while the count
    of the category is below [target]. *)
Definition category_stops (target : Z) (segment : list event) : Prop :=
  (forall a msg b, segment = a ++ EvSay msg :: b -> b = [])
  /\ (forall a url b,
        segment = a ++ EvFetch Detail url :: b ->
        (count_after 0 a < target)%Z).

Module DailySunRun.
Import DailySun.

(** The shape of what one category does after its page is fetched,
    from the count and the seen set before to those after: requests
    are made only below the target, a detail request only for a URL
    not seen, and a document is written, flushed, counted and marked
    seen at once. *)
Inductive run (target : Z) :
    Z * gset pystr -> list event -> Z * gset pystr -> Prop :=
| run_done x : run target x [] x
| run_list c seen url seg y :
    (c < target)%Z ->
    run target (c, seen) seg y ->
    run target (c, seen) (EvFetch Listing url :: seg) y
| run_miss c seen url seg y :
    (c < target)%Z -> url ∉ seen ->
    run target (c, seen) seg y ->
    run target (c, seen) (EvFetch Detail url :: seg) y
| run_hit c seen url line total seg y :
    (c < target)%Z -> url ∉ seen ->
    run target ((c + 1)%Z, {[ url ]} ∪ seen) seg y ->
    run target (c, seen)
        (EvFetch Detail url :: EvWrite line :: EvFlush
           :: EvCount (c + 1) total :: EvSeen url :: seg) y.

Definition at_loc (loc : locals) : Z * gset pystr :=
  (category_collected loc, seen_urls loc).

(** What ends a run of listing: nothing, or one announcement. *)
Definition closing (tail : list event) : Prop :=
  tail = [] \/ exists msg, tail = [EvSay msg].

(** The events of one category: its start, the discovery request,
    the request for its page when discovery succeeds, a run, and what
    closes it. *)
Definition category_shape (target_count : Z) (segment : list event)
  : Prop :=
  exists slug url listed seg tail y,
    segment = EvCategory slug :: EvFetch Discover url :: listed ++ seg ++ tail
    /\ (listed = [] \/ listed = [EvFetch Listing url])
    /\ run target_count (0%Z, ∅) seg y
    /\ closing tail.

End DailySunRun.

Module KalerKanthoRun.
Import KalerKantho.

(** The shape of what one category does, from the count before to the
    count after: requests are made only below the target, and a
    document is written and counted at once.  There is no seen set and
    no flush. *)
Inductive run (target : Z) : Z -> list event -> Z -> Prop :=
| run_done c : run target c [] c
| run_list c url seg c' :
    (c < target)%Z ->
    run target c seg c' ->
    run target c (EvFetch Listing url :: seg) c'
| run_miss c url seg c' :
    (c < target)%Z ->
    run target c seg c' ->
    run target c (EvFetch Detail url :: seg) c'
| run_hit c url line total seg c' :
    (c < target)%Z ->
    run target (c + 1)%Z seg c' ->
    run target c
        (EvFetch Detail url :: EvWrite line :: EvCount (c + 1) total :: seg) c'.

Definition closing (tail : list event) : Prop :=
  tail = [] \/ exists msg, tail = [EvSay msg].

(** The events of one category: its start, a run, and what closes
    it. *)
Definition category_shape (segment : list event) : Prop :=
  exists category seg tail c',
    segment = EvCategory category :: seg ++ tail
    /\ run category_target 0 seg c'
    /\ closing tail.

End KalerKanthoRun.

(** ** The coroutines of New Age *)

Module NewAgeRun.
Import NewAge.

(** The coroutine has put its URL in [visited_urls] and is not done. *)
Definition claimed (p : pc) : bool :=
  match p with
  | Fetching | WaitSave _ | InSave _ | Saved _ => true
  | _ => false
  end.

(** It has claimed its URL and has not written its document. *)
Definition pending (p : pc) : bool :=
  match p with
  | Fetching | WaitSave _ | InSave _ => true
  | _ => false
  end.

Definition doc_of (p : pc) : option json :=
  match p with
  | WaitSave doc | InSave doc | Saved doc => Some doc
  | _ => None
  end.

(** The records of the output file and their URLs. *)
Definition saved (s : state) : list json := default [] (output_file s).

Definition saved_urls (s : state) : list pystr := omap doc_url (saved s).

(** What holds of each coroutine. *)
Record task_ok (target_count : Z) (s : state) (t : task) : Prop := {
  ok_lock : holds_lock (at_pc t) = true -> lock s = true;
  ok_claimed : claimed (at_pc t) = true -> task_url t ∈ visited_urls s;
  ok_pending : pending (at_pc t) = true -> task_url t ∉ saved_urls s;
  ok_saved : forall doc, at_pc t = Saved doc ->
    exists n, collected_counts s !! task_category t = Some n
              /\ (n < target_count)%Z;
  ok_doc : forall doc, doc_of (at_pc t) = Some doc ->
    doc_url doc = Some (task_url t)
}.

(** What holds of two different coroutines. *)
Record tasks_apart (ti tj : task) : Prop := {
  apart_lock : holds_lock (at_pc ti) = true -> holds_lock (at_pc tj) = true -> False;
  apart_url : claimed (at_pc ti) = true -> claimed (at_pc tj) = true ->
    task_url ti ≠ task_url tj
}.

Record inv (target_count : Z) (ts : list task) (s : state) : Prop := {
  inv_counts : forall cat n,
    collected_counts s !! cat = Some n -> (0 <= n <= target_count)%Z;
  inv_tasks : forall i t, tasks s !! i = Some t -> task_ok target_count s t;
  inv_apart : forall i j ti tj,
    i ≠ j -> tasks s !! i = Some ti -> tasks s !! j = Some tj ->
    tasks_apart ti tj;
  inv_nodup : NoDup (saved_urls s);
  inv_all_urls : length (saved_urls s) = length (saved s);
  inv_saved_visited : forall url, url ∈ saved_urls s -> url ∈ visited_urls s;
  inv_visited : forall url,
    url ∈ visited_urls s -> url ∈ List.map task_url ts;
  inv_urls : List.map task_url (tasks s) = List.map task_url ts
}.

End NewAgeRun.

(** ** What [parse_api] yields *)

(** The requests for an article among what a callback yields. *)
Definition is_detail (o : ProthomAlo.output) : bool :=
  match o with
  | ProthomAlo.Request _ ProthomAlo.ParseArticle _ => true
  | _ => false
  end.

Definition is_listing (o : ProthomAlo.output) : bool :=
  match o with
  | ProthomAlo.Request _ ProthomAlo.ParseApi _ => true
  | _ => false
  end.

(** ** Sample worlds *)

(** A Daily Sun site.  Every category is served the same page, whose
    script names the load-more endpoint and which links two articles,
    one under law-&-Order and one under sports; every article has the
    text [body]; the load-more endpoint answers [ajax].  The
    extraction functions are what [re] and [BeautifulSoup] give on
    these pages. *)
Module DailySunWorld.

Definition category_page : pystr :=
  py "<script>var url = '/ajax/load/categorynews/276/20/' + paginate + '/20' + '?lastID=853260';</script><a href='/law-&-Order/853260/clash'>Clash</a><a href='/sports/853261/match'>Match</a>".

Definition article_page (body : pystr) : pystr :=
  py "<h1 class='detailHeadline'>Title</h1><div class='publishedTime'>Published: 22 Jan 2026, 01:32 PM</div><div class='detailBody'>"
  ++ body ++ py "</div>".

(** Group 1 of [/(\d+)/] in an ASCII text: the first run of digits
    that stands between two slashes.  [after_slash] holds while only
    digits, kept in [digits], have been read since the last slash. *)
Fixpoint id_segment_from (after_slash : bool) (digits : pystr) (s : pystr)
  : option pystr :=
  match s with
  | [] => None
  | c :: rest =>
      if c =? 47 then
        match digits with
        | _ :: _ => if after_slash then Some (rev digits)
                    else id_segment_from true [] rest
        | [] => id_segment_from true [] rest
        end
      else if after_slash && is_ascii_digit c
      then id_segment_from true (c :: digits) rest
      else id_segment_from false [] rest
  end.

Definition id_segment (s : pystr) : option pystr :=
  id_segment_from false [] s.

Definition net (ajax body : pystr) : network :=
  fun _ url =>
    if contains (py "/ajax/") url then CurlExit 0 ajax
    else if bool_decide (is_Some (id_segment url))
    then CurlExit 0 (article_page body)
    else CurlExit 0 category_page.

Definition re_category_id (content : pystr) : option pystr :=
  if contains (py "categorynews/276/") content then Some (py "276") else None.

Definition re_last_id (content : pystr) : option pystr :=
  if contains (py "lastID=853260") content then Some (py "853260") else None.

Definition hrefs : list pystr :=
  [ py "/law-&-Order/853260/clash"; py "/sports/853261/match" ].

Definition soup_hrefs (content : pystr) : list pystr :=
  if contains (py "<a href=") content then hrefs else [].

Definition detail_title (content : pystr) : pystr :=
  if contains (py "detailHeadline") content then py "Title" else [].

Definition detail_date (content : pystr) : pystr :=
  if contains (py "publishedTime") content
  then py "2026-01-22 13:32:00" else [].

Definition detail_body_text (body content : pystr) : pystr :=
  if contains (py "detailBody") content then strip body else [].

Definition crawl_category (ajax body : pystr) (target_count : Z) (fuel : nat)
    (cat_url : pystr) (st : state) : outcome * state :=
  DailySun.crawl_category (net ajax body) re_category_id re_last_id
    soup_hrefs id_segment detail_title detail_date (detail_body_text body)
    (fun _ => true) target_count fuel cat_url st.

Definition crawl (ajax body : pystr) (target_count : Z) (fuel : nat)
  : outcome * state :=
  DailySun.crawl (net ajax body) re_category_id re_last_id
    soup_hrefs id_segment detail_title detail_date (detail_body_text body)
    (fun _ => true) target_count fuel.

End DailySunWorld.

(** A Kaler Kantho site whose first list page of every category names
    the same article twice and whose second page is empty; [details]
    is the JSON of that article, which the site also answers for its
    home page.  [strptime] and [py_str] are what [datetime.strptime]
    and [str] give on the values of these pages. *)
Module KalerKanthoWorld.

Definition list_page : pystr :=
  let item := JObj [ (py "n_id", JInt 7);
                     (py "start_at", JStr (py "2026-01-22 13:32:00")) ] in
  dumps (JObj [ (py "pageProps",
                 JObj [ (py "newsData", JArr [item; item]) ]) ]).

Definition empty_page : pystr :=
  dumps (JObj [ (py "pageProps", JObj [ (py "newsData", JArr []) ]) ]).

Definition net (details : pystr) : network :=
  fun _ url =>
    if contains (py ".json?page=1") url then CurlExit 0 list_page
    else if contains (py ".json?page=") url then CurlExit 0 empty_page
    else CurlExit 0 details.

Definition py_str (v : json) : pystr :=
  match v with
  | JStr s => s
  | JInt z => str_of_Z z
  | _ => []
  end.

Definition strptime (date_str : pystr) : option (Z * Z * Z) :=
  if bool_decide (date_str = py "2026-01-22 13:32:00")
  then Some (2026, 1, 22)%Z else None.

Definition crawl (details : pystr) (fuel : nat) : outcome * state :=
  KalerKantho.crawl (net details) (fun _ => None) strptime
    (fun html => html) py_str (fun _ => true) fuel.

(** The JSON of an article with the body [n_details]. *)
Definition details (n_details : pystr) : pystr :=
  dumps (JObj [ (py "pageProps",
                 JObj [ (py "details",
                         JObj [ (py "n_head", JStr (py "T"));
                                (py "n_details", JStr n_details) ]) ]) ]).

Definition with_body : pystr := details (py "text").

Definition without_body : pystr := details [].

End KalerKanthoWorld.

(** The article of the sample Kaler Kantho site, listed under
    national: the URL it is fetched from and the record the spider
    makes of it. *)
Definition kk_detail_url : pystr :=
  py "https://www.kalerkantho.com/_next/data/kk-build-0.5.95/online/national/2026/01/22/7.json".

Definition kk_article (body : pystr) : json :=
  KalerKantho.make_article
    (py "https://www.kalerkantho.com/online/national/2026/01/22/7")
    (JStr (py "T")) (py "2026-01-22 13:32:00") (JStr (py "national")) body.

(** The calls of [f.flush()] in a trace. *)
Definition is_flush (e : event) : bool :=
  match e with
  | EvFlush => true
  | _ => false
  end.

(** No paragraph on the page of the article. *)
Definition bare_page : ProthomAlo.response :=
  ProthomAlo.mkResponse (py "https://www.prothomalo.com/bangladesh/abc")
    (py "<html></html>") [ (py "title", JStr (py "T")) ].

(** * Properties *)

(** ** Decoding what [json.dumps] wrote *)

Lemma scanstring_plain c k :
  c ≠ 34 -> c ≠ 92 -> 32 <= c ->
  scanstring (c :: k) = cons_char c (scanstring k).
Proof.
  intros H1 H2 H3. simpl.
  destruct (N.eqb_spec c 34) as [|_]; [done|].
  destruct (N.eqb_spec c 92) as [|_]; [done|].
  destruct (N.ltb_spec c 32); [lia|done].
Qed.

Lemma scanstring_control c k :
  c < 32 ->
  scanstring (escape_char c ++ k) = cons_char c (scanstring k).
Proof.
  intros Hc.
  destruct c as [|p]; [reflexivity|].
  do 5 (try destruct p as [p|p|]); try (exfalso; lia); reflexivity.
Qed.

Lemma scanstring_escape_char c k :
  scanstring (escape_char c ++ k) = cons_char c (scanstring k).
Proof.
  destruct (N.ltb_spec c 32) as [Hlt|Hge].
  - by apply scanstring_control.
  - destruct (decide (c = 34)) as [->|H34]; [reflexivity|].
    destruct (decide (c = 92)) as [->|H92]; [reflexivity|].
    rewrite <- scanstring_plain by done.
    unfold escape_char.
    repeat match goal with
    | |- context [N.eqb c ?n] => destruct (N.eqb_spec c n) as [->|_]; [lia || done|]
    end.
    destruct (N.ltb_spec c 32); [lia|done].
Qed.

Lemma scanstring_escaped s rest :
  scanstring (flat_map escape_char s ++ 34 :: rest) = Some (s, rest).
Proof.
  induction s as [|c s IH]; [reflexivity|].
  simpl. rewrite <- app_assoc, scanstring_escape_char, IH. reflexivity.
Qed.

Lemma dumps_arr items : dumps (JArr items) = 91 :: items_text items ++ [93].
Proof. reflexivity. Qed.

Lemma dumps_obj members :
  dumps (JObj members) = 123 :: members_text members ++ [125].
Proof. reflexivity. Qed.

Lemma scan_once_str fuel s rest :
  scan_once (S fuel) (encode_basestring s ++ rest) = Some (JStr s, rest).
Proof.
  unfold encode_basestring. simpl.
  rewrite <- app_assoc. simpl. by rewrite scanstring_escaped.
Qed.

Lemma items_text_cons x y l :
  items_text (x :: y :: l) = dumps x ++ 44 :: 32 :: items_text (y :: l).
Proof. reflexivity. Qed.

Lemma items_text_one x : items_text [x] = dumps x.
Proof. simpl. by rewrite app_nil_r. Qed.

Lemma items_text_str_head s l :
  exists k, items_text (JStr s :: l) = 34 :: k.
Proof. destruct l; simpl; eauto. Qed.

Lemma parse_items_last fuel s v rest :
  scan_once fuel s = Some (v, 93 :: rest) ->
  parse_items (S fuel) s = Some ([v], rest).
Proof. intros H. simpl. by rewrite H. Qed.

Lemma parse_items_more fuel s v k vs rest :
  scan_once fuel s = Some (v, 44 :: 32 :: 34 :: k) ->
  parse_items fuel (34 :: k) = Some (vs, rest) ->
  parse_items (S fuel) s = Some (v :: vs, rest).
Proof. intros H1 H2. cbn [parse_items]. rewrite H1. simpl. by rewrite H2. Qed.

Lemma parse_items_strs l : forall fuel rest,
  l ≠ [] -> (length l < fuel)%nat ->
  parse_items fuel (items_text (List.map JStr l) ++ 93 :: rest)
  = Some (List.map JStr l, rest).
Proof.
  induction l as [|s l IH]; intros fuel rest Hne Hfuel; [done|].
  destruct fuel as [|[|fuel]]; simpl in Hfuel; try lia.
  destruct l as [|s' l].
  - apply parse_items_last. cbn [List.map]. rewrite items_text_one.
    apply scan_once_str.
  - cbn [List.map]. rewrite items_text_cons.
    destruct (items_text_str_head s' (List.map JStr l)) as [k Hk].
    eapply parse_items_more.
    + rewrite <- app_assoc. cbn [app]. rewrite Hk. cbn [app].
      apply scan_once_str.
    + change (34 :: k ++ 93 :: rest) with ((34 :: k) ++ 93 :: rest).
      rewrite <- Hk. apply (IH (S fuel) rest); [done|simpl in *; lia].
Qed.

Lemma skip_ws_id c k : is_json_ws c = false -> skip_ws (c :: k) = c :: k.
Proof. intros H. simpl. by rewrite H. Qed.

Lemma dumps_flat_head v :
  flat v -> exists c k, dumps v = c :: k /\ is_json_ws c = false.
Proof. intros [s|l]; eexists _, _; split; reflexivity. Qed.

Lemma scan_once_flat v fuel rest :
  flat v -> (need v <= fuel)%nat ->
  scan_once fuel (dumps v ++ rest) = Some (v, rest).
Proof.
  intros [s|l] Hfuel; cbn [need] in Hfuel.
  - destruct fuel; [lia|]. apply scan_once_str.
  - rewrite length_map in Hfuel.
    destruct fuel as [|fuel]; [lia|].
    destruct l as [|s l]; [reflexivity|].
    rewrite dumps_arr.
    destruct (items_text_str_head s (List.map JStr l)) as [k Hk].
    change (List.map JStr (s :: l)) with (JStr s :: List.map JStr l).
    assert (Hitems : parse_items fuel ((34 :: k) ++ 93 :: rest)
                     = Some (JStr s :: List.map JStr l, rest)).
    { rewrite <- Hk. apply (parse_items_strs (s :: l)); [done|].
      cbn [length] in *. lia. }
    rewrite Hk. cbn [app] in *. rewrite <- app_assoc. cbn [app].
    cbn [scan_once]. cbn [N.eqb Pos.eqb skip_ws is_json_ws orb].
    by rewrite Hitems.
Qed.

Lemma members_text_cons k v m ms :
  members_text ((k, v) :: m :: ms)
  = encode_basestring k ++ 58 :: 32 :: dumps v ++ 44 :: 32 :: members_text (m :: ms).
Proof. reflexivity. Qed.

Lemma members_text_one k v :
  members_text [(k, v)] = encode_basestring k ++ 58 :: 32 :: dumps v.
Proof. simpl. by rewrite app_nil_r. Qed.

Lemma members_text_head k v ms :
  exists t, members_text ((k, v) :: ms) = 34 :: t.
Proof. destruct ms; simpl; eauto. Qed.

Lemma parse_members_last fuel key v c s2 rest :
  is_json_ws c = false ->
  scan_once fuel (c :: s2) = Some (v, 125 :: rest) ->
  parse_members (S fuel) (encode_basestring key ++ 58 :: 32 :: c :: s2)
  = Some ([(key, v)], rest).
Proof.
  intros Hc H. unfold encode_basestring. cbn [app parse_members N.eqb Pos.eqb].
  rewrite <- app_assoc. cbn [app]. rewrite scanstring_escaped.
  cbn [skip_ws is_json_ws N.eqb Pos.eqb orb].
  fold (is_json_ws c). rewrite Hc, H. reflexivity.
Qed.

Lemma parse_members_more fuel key v c s2 t ms rest :
  is_json_ws c = false ->
  scan_once fuel (c :: s2) = Some (v, 44 :: 32 :: 34 :: t) ->
  parse_members fuel (34 :: t) = Some (ms, rest) ->
  parse_members (S fuel) (encode_basestring key ++ 58 :: 32 :: c :: s2)
  = Some ((key, v) :: ms, rest).
Proof.
  intros Hc H1 H2. unfold encode_basestring. cbn [app parse_members N.eqb Pos.eqb].
  rewrite <- app_assoc. cbn [app]. rewrite scanstring_escaped.
  cbn [skip_ws is_json_ws N.eqb Pos.eqb orb].
  fold (is_json_ws c). rewrite Hc, H1.
  cbn [skip_ws is_json_ws N.eqb Pos.eqb orb]. by rewrite H2.
Qed.

Lemma parse_members_flat ms : forall fuel rest,
  ms ≠ [] -> Forall (fun m => flat (snd m)) ms ->
  (members_need ms <= fuel)%nat ->
  parse_members fuel (members_text ms ++ 125 :: rest) = Some (ms, rest).
Proof.
  induction ms as [|[k v] ms IH]; intros fuel rest Hne Hflat Hfuel; [done|].
  apply Forall_cons in Hflat as [Hv Hflat]. simpl in Hv.
  destruct fuel as [|fuel]; simpl in Hfuel; [lia|].
  destruct (dumps_flat_head v Hv) as (c & s2 & Hd & Hc).
  destruct ms as [|[k' v'] ms].
  - rewrite members_text_one. rewrite <- app_assoc. cbn [app].
    rewrite Hd. cbn [app].
    apply parse_members_last; [done|].
    change (c :: s2 ++ 125 :: rest) with ((c :: s2) ++ 125 :: rest).
    rewrite <- Hd. apply scan_once_flat; [done|lia].
  - rewrite members_text_cons.
    destruct (members_text_head k' v' ms) as [t Ht].
    rewrite <- app_assoc. cbn [app]. rewrite <- app_assoc. rewrite Hd. cbn [app].
    eapply parse_members_more; [done| |].
    + change (c :: s2 ++ ?x) with ((c :: s2) ++ x).
      rewrite <- Hd. rewrite Ht. cbn [app].
      apply scan_once_flat; [done|lia].
    + change (34 :: t ++ 125 :: rest) with ((34 :: t) ++ 125 :: rest).
      rewrite <- Ht. apply IH; [done|done|simpl in *; lia].
Qed.

Lemma length_items_text_strs l :
  (length l <= length (items_text (List.map JStr l)))%nat.
Proof.
  induction l as [|s [|s' l] IH]; [simpl; lia|simpl; lia|].
  cbn [List.map]. rewrite items_text_cons.
  rewrite length_app. cbn [length List.map] in *. lia.
Qed.

Lemma need_length v : flat v -> (need v <= length (dumps v))%nat.
Proof.
  intros [s|l].
  - simpl. lia.
  - rewrite dumps_arr. simpl. rewrite length_app, length_map. simpl.
    pose proof (length_items_text_strs l). lia.
Qed.

Lemma members_need_length ms :
  Forall (fun m => flat (snd m)) ms ->
  (members_need ms <= length (members_text ms))%nat.
Proof.
  induction ms as [|[k v] [|m ms] IH]; intros Hflat; [simpl; lia| |].
  - apply Forall_cons in Hflat as [Hv _]. simpl in Hv.
    rewrite members_text_one. pose proof (need_length v Hv).
    unfold encode_basestring. cbn [members_need length app].
    rewrite !length_app. cbn [length]. clear IH Hv. lia.
  - apply Forall_cons in Hflat as [Hv Hflat]. simpl in Hv.
    rewrite members_text_cons. pose proof (need_length v Hv).
    specialize (IH Hflat).
    change (members_need ((k, v) :: m :: ms))
      with (S (need v + members_need (m :: ms))).
    unfold encode_basestring. cbn [length app].
    rewrite !length_app. cbn [length]. rewrite !length_app. cbn [length].
    clear Hv Hflat. lia.
Qed.

(** [json.loads] reads a flat record back as it was written. *)
Lemma loads_dumps_flat ms :
  ms ≠ [] -> Forall (fun m => flat (snd m)) ms ->
  loads (dumps (JObj ms)) = Some (JObj ms).
Proof.
  intros Hne Hflat. unfold loads. rewrite dumps_obj.
  destruct ms as [|[k v] ms]; [done|].
  destruct (members_text_head k v ms) as [t Ht].
  pose proof (parse_members_flat ((k, v) :: ms)
                (length (123 :: members_text ((k, v) :: ms) ++ [125])) []
                Hne Hflat) as Hp.
  pose proof (members_need_length _ Hflat) as Hlen.
  rewrite Ht in *. cbn [app] in *.
  cbn [skip_ws is_json_ws N.eqb Pos.eqb orb scan_once].
  rewrite Hp; [reflexivity|].
  cbn [length]. rewrite length_app. cbn [length] in *. lia.
Qed.

(** ** A record is one line *)

Lemma escape_char_no_newline c : Forall no_newline (escape_char c).
Proof.
  unfold escape_char, hex_digit.
  generalize (c `div` 16) (c `mod` 16). intros d m.
  repeat match goal with
  | |- context [N.eqb c ?n] => destruct (N.eqb_spec c n) as [->|?]
  | |- context [N.ltb ?a ?b] => destruct (N.ltb_spec a b)
  end;
  repeat (apply Forall_cons_2; [unfold no_newline; lia|]);
  apply Forall_nil_2.
Qed.

Lemma encode_basestring_no_newline s : Forall no_newline (encode_basestring s).
Proof.
  unfold encode_basestring.
  apply Forall_cons_2; [unfold no_newline; lia|].
  apply Forall_app_2.
  - induction s as [|c s IH]; [apply Forall_nil_2|].
    simpl. apply Forall_app_2; [apply escape_char_no_newline|done].
  - apply Forall_cons_2; [unfold no_newline; lia|apply Forall_nil_2].
Qed.

Lemma items_text_no_newline l :
  Forall no_newline (items_text (List.map JStr l)).
Proof.
  induction l as [|s [|s' l] IH]; [apply Forall_nil_2| |].
  - cbn [List.map]. rewrite items_text_one. apply encode_basestring_no_newline.
  - cbn [List.map]. rewrite items_text_cons.
    apply Forall_app_2; [apply encode_basestring_no_newline|].
    do 2 (apply Forall_cons_2; [unfold no_newline; lia|]). exact IH.
Qed.

Lemma dumps_flat_no_newline v : flat v -> Forall no_newline (dumps v).
Proof.
  intros [s|l].
  - apply encode_basestring_no_newline.
  - rewrite dumps_arr. apply Forall_cons_2; [unfold no_newline; lia|].
    apply Forall_app_2; [apply items_text_no_newline|].
    apply Forall_cons_2; [unfold no_newline; lia|apply Forall_nil_2].
Qed.

Lemma members_text_no_newline ms :
  Forall (fun m => flat (snd m)) ms -> Forall no_newline (members_text ms).
Proof.
  induction ms as [|[k v] [|m ms] IH]; intros Hflat; [apply Forall_nil_2| |].
  - apply Forall_cons in Hflat as [Hv _].
    rewrite members_text_one.
    apply Forall_app_2; [apply encode_basestring_no_newline|].
    do 2 (apply Forall_cons_2; [unfold no_newline; lia|]).
    by apply dumps_flat_no_newline.
  - apply Forall_cons in Hflat as [Hv Hflat].
    rewrite members_text_cons.
    apply Forall_app_2; [apply encode_basestring_no_newline|].
    do 2 (apply Forall_cons_2; [unfold no_newline; lia|]).
    apply Forall_app_2; [by apply dumps_flat_no_newline|].
    do 2 (apply Forall_cons_2; [unfold no_newline; lia|]).
    by apply IH.
Qed.

(** The line of a flat record holds no line break before its end. *)
Lemma record_no_newline ms :
  Forall (fun m => flat (snd m)) ms -> Forall no_newline (dumps (JObj ms)).
Proof.
  intros Hflat. rewrite dumps_obj.
  apply Forall_cons_2; [unfold no_newline; lia|].
  apply Forall_app_2; [by apply members_text_no_newline|].
  apply Forall_cons_2; [unfold no_newline; lia|apply Forall_nil_2].
Qed.

Section IndexFacts.

Import BuildIndex.

Lemma readlines_go_line s : forall cur rest,
  Forall no_newline s ->
  readlines_go cur (s ++ 10 :: rest) = (rev cur ++ s ++ [10]) :: readlines_go [] rest.
Proof.
  induction s as [|c s IH]; intros cur rest Hs.
  - reflexivity.
  - apply Forall_cons in Hs as [[H10 H13] Hs].
    cbn [app readlines_go].
    destruct (N.eqb_spec c 10); [done|]. destruct (N.eqb_spec c 13); [done|].
    rewrite IH by done. cbn [rev]. by rewrite <- !app_assoc.
Qed.

(** ** The index builder *)

Lemma strip_line a mid z :
  is_space a = false -> is_space z = false ->
  strip ((a :: mid) ++ [z; 10]) = (a :: mid) ++ [z].
Proof.
  intros Ha Hz. unfold strip, rstrip. cbn [app lstrip]. rewrite Ha.
  change (a :: mid ++ [z; 10]) with ((a :: mid) ++ [z; 10]).
  rewrite rev_app_distr. change (rev [z; 10]) with [10; z].
  cbn [app lstrip].
  change (is_space 10) with true. cbn iota. rewrite Hz.
  change (z :: rev (a :: mid)) with (rev [z] ++ rev (a :: mid)).
  by rewrite <- rev_app_distr, rev_involutive.
Qed.

Lemma strip_record_line ms :
  strip (dumps (JObj ms) ++ [10]) = dumps (JObj ms).
Proof.
  rewrite dumps_obj.
  change (123 :: members_text ms ++ [125])
    with ((123 :: members_text ms) ++ [125]).
  rewrite <- app_assoc. by apply strip_line.
Qed.

Lemma loads_nil : loads [] = None.
Proof. reflexivity. Qed.

Section Index.

Variable uni_alnum : N -> bool.
Variable uni_lower : pystr -> pystr.

Let tokenize := tokenize uni_alnum uni_lower.
Let index_line := index_line uni_alnum uni_lower.
Let index_lines := index_lines uni_alnum uni_lower.
Let build_index := build_index uni_alnum uni_lower.

Lemma tokenize_empty language : tokenize [] language = [].
Proof.
  unfold tokenize, BuildIndex.tokenize. destruct (decide _); reflexivity.
Qed.

Lemma index_line_record language st line_no line members text :
  loads (strip line) = Some (JObj members) ->
  body_of members = Some text ->
  index_line language st line_no line
  = Ok (mkIndexState
          (map_fold (set_posting (str_of_nat (total_docs st)))
                    (inverted_index st) (Counter (tokenize text language)))
          (<[str_of_nat (total_docs st) := length (tokenize text language)]>
             (doc_lengths st))
          (S (total_docs st)) (skipped_lines st) (warnings st)).
Proof.
  intros Hloads Hbody. unfold index_line, BuildIndex.index_line.
  destruct (strip line) as [|c l] eqn:Hstrip; [by rewrite loads_nil in Hloads|].
  rewrite Hloads. unfold body_of in Hbody.
  destruct (dict_get (py "body") members) as [[]|]; simplify_eq; reflexivity.
Qed.

Lemma index_line_blank language st line_no line :
  blank line = true -> index_line language st line_no line = Ok st.
Proof.
  unfold blank, index_line, BuildIndex.index_line.
  by destruct (strip line).
Qed.

Lemma index_line_malformed language st line_no line :
  malformed line = true ->
  index_line language st line_no line
  = Ok (mkIndexState (inverted_index st) (doc_lengths st) (total_docs st)
          (S (skipped_lines st)) (warnings st ++ [line_no])).
Proof.
  unfold malformed, blank, index_line, BuildIndex.index_line.
  destruct (strip line); [done|]. by destruct (loads _).
Qed.

Lemma record_inv line :
  record line = true ->
  exists members text,
    loads (strip line) = Some (JObj members) /\ body_of members = Some text.
Proof.
  unfold record. destruct (loads (strip line)) as [[]|]; try done.
  intros [text Ht]%bool_decide_eq_true. eauto.
Qed.

(** Every line a builder can take is counted once: as a document if
    it is a record, as skipped if it is malformed. *)
Lemma index_lines_counts language lines : forall st line_no,
  forallb (fun l => blank l || malformed l || record l) lines = true ->
  exists st',
    index_lines language st line_no lines = Ok st'
    /\ total_docs st' = (total_docs st + length (List.filter record lines))%nat
    /\ skipped_lines st'
       = (skipped_lines st + length (List.filter malformed lines))%nat
    /\ length (warnings st')
       = (length (warnings st) + length (List.filter malformed lines))%nat.
Proof.
  induction lines as [|line lines IH]; intros st line_no Hall.
  - exists st. simpl. repeat split; lia.
  - cbn [forallb] in Hall. apply andb_true_iff in Hall as [Hline Hall].
    cbn [index_lines BuildIndex.index_lines].
    fold (index_line language st line_no line).
    destruct (record line) eqn:Hrec.
    + destruct (record_inv line Hrec) as (members & text & Hl & Hb).
      rewrite (index_line_record _ _ _ _ _ _ Hl Hb).
      destruct (IH (mkIndexState
          (map_fold (set_posting (str_of_nat (total_docs st)))
                    (inverted_index st) (Counter (tokenize text language)))
          (<[str_of_nat (total_docs st) := length (tokenize text language)]>
             (doc_lengths st))
          (S (total_docs st)) (skipped_lines st) (warnings st)) (S line_no) Hall)
        as (st' & Hrun & Ht & Hs & Hw).
      exists st'. split; [exact Hrun|].
      assert (malformed line = false) as Hm.
      { unfold malformed. rewrite Hl. by rewrite andb_false_r. }
      cbn [List.filter]. rewrite Hrec, Hm. cbn [total_docs skipped_lines warnings length] in *.
      lia.
    + destruct (malformed line) eqn:Hm.
      * rewrite (index_line_malformed _ _ _ _ Hm).
        destruct (IH (mkIndexState (inverted_index st) (doc_lengths st)
                        (total_docs st) (S (skipped_lines st))
                        (warnings st ++ [line_no])) (S line_no) Hall)
          as (st' & Hrun & Ht & Hs & Hw).
        exists st'. split; [exact Hrun|].
        cbn [List.filter]. rewrite Hrec, Hm.
        cbn [total_docs skipped_lines warnings length] in *.
        rewrite length_app in Hw. cbn [length] in Hw. lia.
      * rewrite orb_false_r in Hline. rewrite orb_false_r in Hline.
        rewrite (index_line_blank _ _ _ _ Hline).
        destruct (IH st (S line_no) Hall) as (st' & Hrun & Ht & Hs & Hw).
        exists st'. split; [exact Hrun|].
        cbn [List.filter]. rewrite Hrec, Hm. lia.
Qed.

End Index.

Lemma daily_sun_article_flat url title date category body :
  match DailySun.make_article url title date category body with
  | JObj ms => ms ≠ [] /\ Forall (fun m => flat (snd m)) ms
  | _ => False
  end.
Proof.
  split; [done|].
  repeat (apply Forall_cons_2; [simpl; constructor|]). apply Forall_nil_2.
Qed.

Lemma tokenize_hello_world uni_alnum uni_lower language :
  tokenize uni_alnum uni_lower (py "hello world") language
  = [py "hello"; py "world"].
Proof. unfold tokenize. destruct (decide _); reflexivity. Qed.

(** C6. A Daily Sun document whose body is "hello world", written to
    the output file by the spider and read back by [build_index],
    is document "0": its length is 2 and the index gives "hello" and
    "world" the frequency 1 in it. *)
Theorem C6_round_trip_hello_world uni_alnum uni_lower language
    url title date category :
  let article :=
    DailySun.make_article url title date category (py "hello world") in
  let st :=
    snd (DailySun.accept article url (DailySun.mkLocals 0 1 ∅ None)
           (Crawl.emit Crawl.EvOpen (Crawl.mkState 0 [] 0))) in
  let corpus :=
    Crawl.disk (Crawl.file_after (Crawl.mkFile [] []) (Crawl.trace st)) in
  exists inv dl stats,
    build_index uni_alnum uni_lower language corpus = Ok (inv, dl, stats, [])
    /\ corpus = dumps article ++ [10]
    /\ dl !! py "0" = Some 2%nat
    /\ inv !! py "hello" = Some {[ py "0" := 1%nat ]}
    /\ inv !! py "world" = Some {[ py "0" := 1%nat ]}
    /\ total_documents stats = 1%nat
    /\ stats_skipped_lines stats = 0%nat.
Proof.
  intros article st corpus.
  assert (Hcorpus : corpus = dumps article ++ [10]) by reflexivity.
  pose proof (daily_sun_article_flat url title date category (py "hello world"))
    as Hflat.
  fold article in Hflat.
  destruct article as [| | | | | |ms] eqn:Harticle; try done.
  destruct Hflat as [Hne Hflat].
  assert (Hline : index_line uni_alnum uni_lower language init_state 1
                    (dumps (JObj ms) ++ [10])
                  = Ok (mkIndexState
                          (map_fold (set_posting (py "0")) ∅
                             (Counter [py "hello"; py "world"]))
                          (<[py "0" := 2%nat]> ∅) 1 0 [])).
  { erewrite index_line_record.
    - rewrite tokenize_hello_world. reflexivity.
    - rewrite strip_record_line. by apply loads_dumps_flat.
    - unfold DailySun.make_article in Harticle. injection Harticle as <-.
      reflexivity. }
  eexists _, _, _. split; [|split; [exact Hcorpus|]].
  - unfold build_index. rewrite Hcorpus. unfold readlines.
    rewrite (readlines_go_line (dumps (JObj ms)) [] []);
      [|by apply record_no_newline].
    cbn [rev app readlines_go index_lines]. rewrite Hline. reflexivity.
  - cbn [inverted_index doc_lengths make_stats total_documents
         stats_skipped_lines total_docs skipped_lines].
    repeat split; vm_compute; reflexivity.
Qed.

(** C7. A corpus of 100 lines that are records (JSON objects whose
    body is absent or a string), one line that is not JSON, and any
    number of blank lines: [build_index] returns, prints one warning,
    and its statistics count 100 documents and 1 skipped line. *)
Theorem C7_one_bad_line_among_100_records uni_alnum uni_lower language corpus :
  forallb (fun l => blank l || malformed l || record l) (readlines corpus) = true ->
  length (List.filter record (readlines corpus)) = 100%nat ->
  length (List.filter malformed (readlines corpus)) = 1%nat ->
  exists inv dl stats warns,
    build_index uni_alnum uni_lower language corpus = Ok (inv, dl, stats, warns)
    /\ total_documents stats = 100%nat
    /\ stats_skipped_lines stats = 1%nat
    /\ length warns = 1%nat.
Proof.
  intros Hall Hrec Hbad.
  destruct (index_lines_counts uni_alnum uni_lower language (readlines corpus)
              init_state 1 Hall) as (st' & Hrun & Ht & Hs & Hw).
  unfold build_index. rewrite Hrun.
  eexists _, _, _, _. split; [reflexivity|].
  cbn [make_stats total_documents stats_skipped_lines].
  rewrite Ht, Hs, Hw, Hrec, Hbad. done.
Qed.

Lemma C7_witness :
  exists inv dl stats warns,
    build_index ascii_only_alnum ascii_only_lower (py "english") sample_corpus
    = Ok (inv, dl, stats, warns)
    /\ total_documents stats = 100%nat
    /\ stats_skipped_lines stats = 1%nat
    /\ length warns = 1%nat.
Proof.
  apply (C7_one_bad_line_among_100_records ascii_only_alnum ascii_only_lower
           (py "english") sample_corpus); vm_compute; reflexivity.
Defined.

(** C7, as stated, fails: 100 lines of well-formed JSON (headline-only
    records, whose body is [null]) and one line that is not JSON make
    [build_index] raise instead of reporting statistics. *)
Lemma C7_wellformed_lines_can_raise :
  let corpus := concat (replicate 100 headline_line) ++ py "{bad" ++ [10] in
  length (List.filter (fun l => bool_decide (is_Some (loads (strip l))))
                      (readlines corpus)) = 100%nat
  /\ length (List.filter malformed (readlines corpus)) = 1%nat
  /\ build_index ascii_only_alnum ascii_only_lower (py "bangla") corpus
     = Raise AttributeError.
Proof. vm_compute. done. Qed.

(** C10. A line that decodes to a JSON object whose body is absent or
    a string is counted as a document and gets the next document id;
    when the body is absent or empty its length is 0 and the inverted
    index is unchanged. *)
Theorem C10_record_without_body_is_counted uni_alnum uni_lower language
    st line_no line members :
  loads (strip line) = Some (JObj members) ->
  (dict_get (py "body") members = None
   \/ exists text, dict_get (py "body") members = Some (JStr text)) ->
  exists st',
    index_line uni_alnum uni_lower language st line_no line = Ok st'
    /\ total_docs st' = S (total_docs st)
    /\ skipped_lines st' = skipped_lines st
    /\ is_Some (doc_lengths st' !! str_of_nat (total_docs st))
    /\ (dict_get (py "body") members = None
        \/ dict_get (py "body") members = Some (JStr []) ->
        doc_lengths st' !! str_of_nat (total_docs st) = Some 0%nat
        /\ inverted_index st' = inverted_index st).
Proof.
  intros Hloads Hbody.
  assert (exists text, body_of members = Some text
            /\ (dict_get (py "body") members = None
                \/ dict_get (py "body") members = Some (JStr []) -> text = []))
    as (text & Htext & Hempty).
  { unfold body_of. destruct Hbody as [->|[text ->]].
    - exists []. split; [done|]. done.
    - exists text. split; [done|]. intros [?|?]; by simplify_eq. }
  rewrite (index_line_record _ _ _ _ _ _ _ _ Hloads Htext).
  eexists. split; [reflexivity|].
  cbn [total_docs skipped_lines doc_lengths inverted_index].
  repeat split.
  - rewrite lookup_insert_eq. by eexists.
  - rewrite (Hempty H), tokenize_empty. by rewrite lookup_insert_eq.
  - rewrite (Hempty H), tokenize_empty. apply map_fold_empty.
Qed.

Lemma C10_witness :
  exists st',
    index_line ascii_only_alnum ascii_only_lower (py "english") init_state 1
               (dumps (JObj [(py "title", JStr (py "t"))]) ++ [10]) = Ok st'
    /\ total_docs st' = 1%nat
    /\ skipped_lines st' = 0%nat
    /\ is_Some (doc_lengths st' !! py "0")
    /\ (dict_get (py "body") [(py "title", JStr (py "t"))] = None
        \/ dict_get (py "body") [(py "title", JStr (py "t"))] = Some (JStr []) ->
        doc_lengths st' !! py "0" = Some 0%nat
        /\ inverted_index st' = ∅).
Proof.
  apply (C10_record_without_body_is_counted ascii_only_alnum ascii_only_lower
           (py "english") init_state 1 (dumps (JObj [(py "title", JStr (py "t"))]) ++ [10])
           [(py "title", JStr (py "t"))]).
  - vm_compute. reflexivity.
  - left. vm_compute. reflexivity.
Defined.

(** C10, as stated, fails: a headline-only record is well-formed JSON,
    yet it is not counted; [build_index] raises on its [null] body. *)
Lemma C10_null_body_raises :
  loads (strip headline_line)
  = Some (ProthomAlo.headline_only (JStr (py "x")) JNull)
  /\ build_index ascii_only_alnum ascii_only_lower (py "bangla") headline_line
     = Raise AttributeError.
Proof. vm_compute. done. Qed.

End IndexFacts.

(** ** [fetch_url] *)

Section RetryFacts.

Import NewAge Retry.

Ltac case_attempt script i :=
  let st := fresh "status" in
  let h := fresh "header" in
  let t := fresh "text" in
  destruct (script i) as [|st h t];
  [|destruct (Z.eqb_spec st 429);
    [subst st; destruct h
    |destruct (Z.leb_spec 400 st); [|destruct t]]].

(** C4. [fetch_url] of New Age sends at most 3 requests.  Every
    attempt that fails, whatever the failure (an exception, a 429, any
    other status of 400 or more, an unreadable body), is followed by
    the next attempt until 3 are made; the first attempt that does not
    fail ends the fetch with its text.  [fetch_url] of Daily Sun and
    Kaler Kantho runs curl once and never retries. *)
Theorem C4_every_failure_is_retried script jitter :
  (attempts (snd (fetch_url script jitter)) <= 3)%nat
  /\ ((forall i, (i < 3)%nat -> fails (script i) = true) ->
      attempts (snd (fetch_url script jitter)) = 3%nat
      /\ fst (fetch_url script jitter) = None)
  /\ (forall i status header text,
        (i < 3)%nat ->
        (forall j, (j < i)%nat -> fails (script j) = true) ->
        script i = Responds status header (Some text) ->
        (status < 400)%Z ->
        attempts (snd (fetch_url script jitter)) = S i
        /\ fst (fetch_url script jitter) = Some text)
  /\ (forall net site url st,
        Crawl.trace (snd (Crawl.fetch_url net site url st))
        = Crawl.trace st ++ [Crawl.EvFetch site url]
        /\ Crawl.clock (snd (Crawl.fetch_url net site url st))
           = S (Crawl.clock st)).
Proof.
  split; [|split; [|split]].
  - unfold fetch_url, retries. cbn [fetch_from].
    case_attempt script 0%nat; case_attempt script 1%nat; case_attempt script 2%nat;
      cbn; lia.
  - intros Hall.
    pose proof (Hall 0%nat ltac:(lia)) as H0.
    pose proof (Hall 1%nat ltac:(lia)) as H1.
    pose proof (Hall 2%nat ltac:(lia)) as H2.
    revert H0 H1 H2. unfold fetch_url, retries, fails. cbn [fetch_from].
    case_attempt script 0%nat; case_attempt script 1%nat; case_attempt script 2%nat;
      cbn; intros; try done;
      repeat match goal with
      | H : (_ <=? _)%Z || _ = true |- _ =>
          apply orb_true_iff in H as [H%Z.leb_le|H]; [lia|done]
      end.
  - intros i status header text Hi Hprev Hi_ok Hstatus.
    assert (Hnot429 : status ≠ 429%Z) by lia.
    destruct i as [|[|[|i]]]; [| | |lia].
    + unfold fetch_url, retries. cbn [fetch_from]. rewrite Hi_ok.
      destruct (Z.eqb_spec status 429); [done|].
      destruct (Z.leb_spec 400 status); [lia|]. done.
    + pose proof (Hprev 0%nat ltac:(lia)) as H0. revert H0.
      unfold fetch_url, retries, fails. cbn [fetch_from]. rewrite Hi_ok.
      destruct (Z.eqb_spec status 429); [done|].
      destruct (Z.leb_spec 400 status); [lia|].
      case_attempt script 0%nat; cbn; intros; try done;
      repeat match goal with
      | H : (_ <=? _)%Z || _ = true |- _ =>
          apply orb_true_iff in H as [H%Z.leb_le|H]; [lia|done]
      end.
    + pose proof (Hprev 0%nat ltac:(lia)) as H0.
      pose proof (Hprev 1%nat ltac:(lia)) as H1. revert H0 H1.
      unfold fetch_url, retries, fails. cbn [fetch_from]. rewrite Hi_ok.
      destruct (Z.eqb_spec status 429); [done|].
      destruct (Z.leb_spec 400 status); [lia|].
      case_attempt script 0%nat; case_attempt script 1%nat; cbn; intros; try done;
      repeat match goal with
      | H : (_ <=? _)%Z || _ = true |- _ =>
          apply orb_true_iff in H as [H%Z.leb_le|H]; [lia|done]
      end.
  - intros net site url st. unfold Crawl.fetch_url.
    destruct (net _ _) as [|rc out]; [done|]. by destruct (rc =? 0)%Z.
Qed.

(** C4, as stated, fails: a fetch answered 404 at every attempt is
    not given up after one request, it is requested 3 times. *)
Lemma C4_404_is_retried :
  let script := fun _ : nat => Responds 404 NoHeader (Some (py "Not Found")) in
  attempts (snd (fetch_url script (fun _ => 0%Q))) = 3%nat
  /\ fst (fetch_url script (fun _ => 0%Q)) = None.
Proof. split; reflexivity. Qed.

Lemma backoff_0 : inject_Z (backoff * 2 ^ Z.of_nat 0) = 1%Q.
Proof. reflexivity. Qed.

Lemma backoff_1 : inject_Z (backoff * 2 ^ Z.of_nat 1) = 2%Q.
Proof. reflexivity. Qed.

(** C8. In a fetch where no attempt is answered 429, the successive
    retry delays are non-decreasing, whatever the jitter drawn between
    0 and 1 (so also without jitter): they are 1 and 2 seconds plus
    jitter.  In any fetch, the request answered 429 is followed by a
    sleep of exactly the delay of its Retry-After header when [int]
    reads it, and of 60 seconds when the header is absent. *)
Theorem C8_backoff_and_retry_after script jitter :
  ((forall i, (0 <= jitter i /\ jitter i <= 1)%Q) ->
   (forall i, (i < 3)%nat -> is_429 (script i) = false) ->
   Sorted Qle (delays (snd (fetch_url script jitter))))
  /\ (forall i header text wait,
        In (Get i) (snd (fetch_url script jitter)) ->
        script i = Responds 429 header text ->
        wait_429 header = Some wait ->
        exists before after,
          snd (fetch_url script jitter)
          = before ++ Get i :: Sleep (inject_Z wait) :: after).
Proof.
  split.
  - intros Hj Hno.
    pose proof (Hno 0%nat ltac:(lia)) as H0.
    pose proof (Hno 1%nat ltac:(lia)) as H1.
    pose proof (Hno 2%nat ltac:(lia)) as H2.
    pose proof (Hj 0%nat) as [J0a J0b]. pose proof (Hj 1%nat) as [J1a J1b].
    revert H0 H1 H2. unfold fetch_url, retries, is_429. cbn [fetch_from].
    case_attempt script 0%nat; case_attempt script 1%nat;
      case_attempt script 2%nat;
      cbn -[inject_Z Qplus Z.mul Z.pow Z.of_nat]; intros; try done;
      rewrite ?backoff_0, ?backoff_1;
      repeat (first [apply Sorted_nil | apply Sorted_cons
                    | apply HdRel_nil | apply HdRel_cons]); lra.
  - intros i header text wait Hin Hscript Hwait.
    assert (Hi : (i < 3)%nat).
    { revert Hin. unfold fetch_url, retries. cbn [fetch_from].
      case_attempt script 0%nat; case_attempt script 1%nat;
        case_attempt script 2%nat;
        cbn -[inject_Z Qplus Z.mul Z.pow Z.of_nat];
        intros Hin; repeat (destruct Hin as [Hin|Hin]; [simplify_eq; lia|]);
        done. }
    assert (Hsleep : forall rest : option pystr * list fetch_event,
      (let '(r, evs) :=
         match header with
         | NoHeader => (fst rest, Sleep (inject_Z 60) :: snd rest)
         | Seconds w => (fst rest, Sleep (inject_Z w) :: snd rest)
         | NotANumber => on_exception jitter i rest
         end in (r, Get i :: evs)).2
      = Get i :: Sleep (inject_Z wait) :: snd rest).
    { intros rest. destruct header; simplify_eq/=; done. }
    revert Hin. unfold fetch_url, retries.
    destruct i as [|[|[|i]]]; [| | |lia].
    + cbn [fetch_from]. rewrite Hscript. cbn [Z.eqb Pos.eqb].
      intros _. exists []. eexists. rewrite Hsleep. reflexivity.
    + cbn [fetch_from]. rewrite Hscript. cbn [Z.eqb Pos.eqb].
      case_attempt script 0%nat;
        cbn -[inject_Z Qplus Z.mul Z.pow Z.of_nat];
        intros Hin;
        try (eexists [_; _]; eexists; cbn [app]; do 2 f_equal;
             apply Hsleep);
        repeat (destruct Hin as [Hin|Hin]; [by simplify_eq|]); done.
    + cbn [fetch_from]. rewrite Hscript. cbn [Z.eqb Pos.eqb].
      case_attempt script 0%nat; case_attempt script 1%nat;
        cbn -[inject_Z Qplus Z.mul Z.pow Z.of_nat];
        intros Hin;
        try (eexists [_; _; _; _]; eexists; cbn [app]; do 4 f_equal;
             apply (Hsleep (None, [])));
        repeat (destruct Hin as [Hin|Hin]; [by simplify_eq|]); done.
Qed.

Lemma C8_witness :
  Sorted Qle (delays (snd (fetch_url throws_always steady_jitter)))
  /\ exists before after,
       snd (fetch_url (fun _ => Responds 429 (Seconds 7) None) steady_jitter)
       = before ++ Get 1 :: Sleep (inject_Z 7) :: after.
Proof.
  split.
  - apply (C8_backoff_and_retry_after throws_always steady_jitter).
    + intros i. unfold steady_jitter. split; [apply Qle_refl|discriminate].
    + reflexivity.
  - apply (proj2 (C8_backoff_and_retry_after
                    (fun _ => Responds 429 (Seconds 7) None) steady_jitter)
             1%nat (Seconds 7) None 7%Z).
    + vm_compute. tauto.
    + reflexivity.
    + reflexivity.
Defined.

(** C8, as stated, fails: a fetch answered 429 without Retry-After and
    then hit by a timeout waits 60 seconds and then 2: its delays,
    jitter ignored, decrease. *)
Lemma C8_delays_can_decrease :
  let script := fun i : nat =>
    match i with
    | O => Responds 429 NoHeader None
    | _ => Throws
    end in
  delays (snd (fetch_url script steady_jitter))
  = [inject_Z 60; (inject_Z 2 + 0)%Q]
  /\ ~ Sorted Qle (delays (snd (fetch_url script steady_jitter))).
Proof.
  split; [reflexivity|].
  intros H. apply Sorted_inv in H as [_ H]. apply HdRel_inv in H.
  vm_compute in H. by apply H.
Qed.

Lemma C4_witness :
  (forall i, (i < 3)%nat -> fails (throws_always i) = true)
  /\ attempts (snd (fetch_url throws_always steady_jitter)) = 3%nat
  /\ fst (fetch_url throws_always steady_jitter) = None.
Proof.
  assert (Hall : forall i, (i < 3)%nat -> fails (throws_always i) = true)
    by (intros i _; reflexivity).
  split; [exact Hall|].
  exact (proj1 (proj2 (C4_every_failure_is_retried throws_always steady_jitter))
               Hall).
Defined.

End RetryFacts.

(** ** Runs of the Daily Sun spider *)

Lemma count_after_app c a b :
  count_after c (a ++ b) = count_after (count_after c a) b.
Proof.
  revert c. induction a as [|e a IH]; intros c; [done|].
  destruct e; cbn [app count_after]; apply IH.
Qed.

Lemma guarded_app target c a b :
  guarded target c (a ++ b)
  <-> guarded target c a /\ guarded target (count_after c a) b.
Proof.
  revert c. induction a as [|e a IH]; intros c; [cbn; tauto|].
  destruct e as [[] ?| | | | | | | | ]; cbn [app guarded count_after];
    rewrite IH; tauto.
Qed.

Lemma guarded_split target c a site url b :
  site ≠ Discover ->
  guarded target c (a ++ EvFetch site url :: b) ->
  (count_after c a < target)%Z.
Proof.
  intros Hsite [_ H]%guarded_app. destruct site; [done|..]; apply H.
Qed.

Lemma fresh_app seen a b :
  fresh seen (a ++ b)
  <-> fresh seen a /\ fresh (list_to_set (seen_of a) ∪ seen) b.
Proof.
  revert seen. induction a as [|e a IH]; intros seen.
  - cbn. rewrite (left_id_L ∅ (∪)). tauto.
  - destruct e as [[] url| | | | | |url| | ]; cbn [app fresh]; rewrite IH;
      try (change (seen_of (_ :: a)) with (seen_of a); tauto).
    change (seen_of (EvSeen url :: a)) with (url :: seen_of a).
    cbn [list_to_set].
    replace ({[url]} ∪ list_to_set (seen_of a) ∪ seen)
      with (list_to_set (seen_of a) ∪ ({[url]} ∪ seen)) by set_solver.
    tauto.
Qed.

Lemma fresh_split seen a url b :
  fresh seen (a ++ EvFetch Detail url :: b) ->
  (url ∉ seen) /\ (url ∉ seen_of a).
Proof.
  intros [_ [H _]]%fresh_app. set_solver.
Qed.

Lemma last_of_closed (pre : list event) tail a msg b :
  Forall (fun e => is_say e = false) pre ->
  (tail = [] \/ exists m, tail = [EvSay m]) ->
  pre ++ tail = a ++ EvSay msg :: b ->
  b = [].
Proof.
  intros Hpre Htail Heq.
  assert (Hno : EvSay msg ∉ pre).
  { intros Hin. rewrite Forall_forall in Hpre. by apply Hpre in Hin. }
  destruct Htail as [->|[m ->]].
  - rewrite app_nil_r in Heq. subst pre. set_solver.
  - destruct b as [|e b _] using rev_ind; [done|].
    change (a ++ EvSay msg :: b ++ [e]) with (a ++ (EvSay msg :: b) ++ [e]) in Heq.
    rewrite app_assoc in Heq. apply app_inj_tail in Heq as [-> _].
    set_solver.
Qed.

(** Equal lists of events, up to the bracketing of [++]. *)
Ltac same_trace :=
  repeat (rewrite <- ?app_assoc; cbn [app]); try reflexivity; try done.

Section DailySunFacts.

Import DailySun DailySunRun.

Lemma ds_run_app target x s1 y s2 z :
  run target x s1 y -> run target y s2 z -> run target x (s1 ++ s2) z.
Proof.
  induction 1; intros H2; cbn [app];
    [done|apply run_list|apply run_miss|apply run_hit]; auto.
Qed.

(** *** What follows from the shape of a run *)

Section Facts.

Variable target : Z.

Lemma ds_run_counts x seg y : run target x seg y -> Forall (count_le target) seg.
Proof.
  induction 1; repeat (apply Forall_cons_2; [cbn; try done; lia|]);
    try done; apply Forall_nil_2.
Qed.

Lemma ds_run_count_after c seen seg c' seen' :
  run target (c, seen) seg (c', seen') -> count_after c seg = c'.
Proof.
  intros H. remember (c, seen) as x eqn:Hx. remember (c', seen') as y eqn:Hy.
  revert c seen Hx. induction H; intros c0 seen0 Hx; simplify_eq; cbn; eauto.
Qed.

Lemma ds_run_guarded c seen seg y :
  run target (c, seen) seg y -> guarded target c seg.
Proof.
  intros H. remember (c, seen) as x eqn:Hx.
  revert c seen Hx. induction H; intros c0 seen0 Hx; simplify_eq; cbn; eauto.
Qed.

Lemma ds_run_fresh c seen seg y :
  run target (c, seen) seg y -> fresh seen seg.
Proof.
  intros H. remember (c, seen) as x eqn:Hx.
  revert c seen Hx. induction H; intros c0 seen0 Hx; simplify_eq; cbn; eauto.
Qed.

Lemma ds_run_no_say x seg y :
  run target x seg y -> Forall (fun e => is_say e = false) seg.
Proof.
  induction 1; repeat (apply Forall_cons_2; [done|]); try done;
    apply Forall_nil_2.
Qed.

(** The bookkeeping of the seen set: each URL is added once, the set
    only grows, and the count grows with it; each addition goes with
    one line written and follows a request for that URL. *)
Lemma ds_run_seen c seen seg c' seen' :
  run target (c, seen) seg (c', seen') ->
  NoDup (seen_of seg)
  /\ (forall url, url ∈ seen_of seg -> url ∉ seen)
  /\ seen' = list_to_set (seen_of seg) ∪ seen
  /\ c' = (c + Z.of_nat (length (seen_of seg)))%Z
  /\ length (writes_of seg) = length (seen_of seg)
  /\ seen_of seg ⊆ details_of seg.
Proof.
  intros H. remember (c, seen) as x eqn:Hx. remember (c', seen') as y eqn:Hy.
  revert c seen Hx. induction H; intros c0 seen0 Hx; simplify_eq.
  - cbn. split; [constructor|]. split; [set_solver|]. split; [set_solver|].
    split; [lia|]. split; [done|set_solver].
  - destruct (IHrun eq_refl _ _ eq_refl) as (Hnd & Hfr & Hs & Hc & Hw & Hd).
    change (seen_of (EvFetch Listing url :: seg)) with (seen_of seg).
    change (writes_of (EvFetch Listing url :: seg)) with (writes_of seg).
    change (details_of (EvFetch Listing url :: seg)) with (details_of seg).
    done.
  - destruct (IHrun eq_refl _ _ eq_refl) as (Hnd & Hfr & Hs & Hc & Hw & Hd).
    change (seen_of (EvFetch Detail url :: seg)) with (seen_of seg).
    change (writes_of (EvFetch Detail url :: seg)) with (writes_of seg).
    change (details_of (EvFetch Detail url :: seg))
      with (url :: details_of seg).
    repeat split; try done. set_solver.
  - destruct (IHrun eq_refl _ _ eq_refl) as (Hnd & Hfr & Hs & Hc & Hw & Hd).
    change (seen_of (EvFetch Detail url :: EvWrite line :: EvFlush
                       :: EvCount (c0 + 1) total :: EvSeen url :: seg))
      with (url :: seen_of seg).
    change (writes_of (EvFetch Detail url :: EvWrite line :: EvFlush
                         :: EvCount (c0 + 1) total :: EvSeen url :: seg))
      with (line :: writes_of seg).
    change (details_of (EvFetch Detail url :: EvWrite line :: EvFlush
                          :: EvCount (c0 + 1) total :: EvSeen url :: seg))
      with (url :: details_of seg).
    split; [|split; [|split; [|split; [|split]]]].
    + apply NoDup_cons. split; [|done].
      intros Hin. apply Hfr in Hin. set_solver.
    + intros u [->|Hin]%elem_of_cons; [done|].
      apply Hfr in Hin. set_solver.
    + rewrite Hs. cbn [list_to_set]. set_solver.
    + rewrite Hc. cbn [length]. rewrite Nat2Z.inj_succ. clear. lia.
    + cbn [length]. by rewrite Hw.
    + set_solver.
Qed.

End Facts.

Section WithWorld.

Variable net : network.
Variable re_category_id : pystr -> option pystr.
Variable re_last_id : pystr -> option pystr.
Variable soup_hrefs : pystr -> list pystr.
Variable re_id_segment : pystr -> option pystr.
Variable detail_title : pystr -> pystr.
Variable detail_date : pystr -> pystr.
Variable detail_body_text : pystr -> pystr.
Variable float_truth : pystr -> bool.
Variable target_count : Z.

Local Abbreviation category_shape :=
  (DailySunRun.category_shape target_count).

Let fetch_article :=
  fetch_article net detail_title detail_date detail_body_text.
Let scan_link :=
  scan_link net re_id_segment detail_title detail_date detail_body_text
            float_truth target_count.
Let scan_links :=
  scan_links net re_id_segment detail_title detail_date detail_body_text
             float_truth target_count.
Let scan_item :=
  scan_item net detail_title detail_date detail_body_text float_truth
            target_count.
Let scan_items :=
  scan_items net detail_title detail_date detail_body_text float_truth
             target_count.
Let ajax_loop :=
  ajax_loop net detail_title detail_date detail_body_text float_truth
            target_count.
Let crawl_category :=
  crawl_category net re_category_id re_last_id soup_hrefs re_id_segment
                 detail_title detail_date detail_body_text float_truth
                 target_count.
Let crawl_categories :=
  crawl_categories net re_category_id re_last_id soup_hrefs re_id_segment
                   detail_title detail_date detail_body_text float_truth
                   target_count.
Let crawl :=
  crawl net re_category_id re_last_id soup_hrefs re_id_segment
        detail_title detail_date detail_body_text float_truth target_count.

Lemma ds_fetch_url_trace site url st :
  trace (snd (fetch_url net site url st)) = trace st ++ [EvFetch site url].
Proof.
  unfold fetch_url. destruct (net _ _) as [|rc out]; [done|].
  by destruct (rc =? 0)%Z.
Qed.

Lemma ds_fetch_article_trace url slug st :
  trace (snd (fetch_article url slug st)) = trace st ++ [EvFetch Detail url].
Proof.
  unfold fetch_article, DailySun.fetch_article.
  pose proof (ds_fetch_url_trace Detail url st) as H.
  destruct (fetch_url net Detail url st) as [[[|c content]|] st']; exact H.
Qed.

(** A detail request and what follows it in the same turn of a loop. *)
Lemma ds_detail_step url slug loc st loc' st' :
  (category_collected loc < target_count)%Z ->
  url ∉ seen_urls loc ->
  (let '(article, st1) := fetch_article url slug st in
   match article with
   | Some doc =>
       if has_body float_truth article
       then accept doc url loc st1
       else (loc, st1)
   | None => (loc, st1)
   end) = (loc', st') ->
  exists seg,
    trace st' = trace st ++ seg
    /\ run target_count (at_loc loc) seg (at_loc loc')
    /\ page loc' = page loc.
Proof.
  intros Hlt Hnew.
  pose proof (ds_fetch_article_trace url slug st) as Ht.
  destruct (fetch_article url slug st) as [article st1]. cbn [snd] in Ht.
  assert (Hmiss : exists seg,
            trace st1 = trace st ++ seg
            /\ run target_count (at_loc loc) seg (at_loc loc)
            /\ page loc = page loc).
  { exists [EvFetch Detail url]. split; [done|]. split; [|done].
    apply run_miss; [done|done|constructor]. }
  destruct article as [doc|]; [|intros [= <- <-]; exact Hmiss].
  destruct (has_body float_truth (Some doc)); [|intros [= <- <-]; exact Hmiss].
  unfold accept, emit. cbn [trace clock collected_count].
  intros [= <- <-]. cbn [trace].
  eexists. split.
  - rewrite Ht. rewrite <- !app_assoc. cbn [app]. reflexivity.
  - split; [|done]. unfold at_loc. cbn [category_collected seen_urls].
    apply run_hit; [done|done|constructor].
Qed.

Lemma ds_scan_link_run slug href loc st fl loc' st' :
  scan_link slug href loc st = (fl, loc', st') ->
  exists seg,
    trace st' = trace st ++ seg
    /\ run target_count (at_loc loc) seg (at_loc loc').
Proof.
  unfold scan_link, DailySun.scan_link.
  assert (Hnone : exists seg,
            trace st = trace st ++ seg
            /\ run target_count (at_loc loc) seg (at_loc loc)).
  { exists []. split; [by rewrite app_nil_r|constructor]. }
  destruct (_ && _); [|intros [= <- <- <-]; exact Hnone].
  case_bool_decide as Hseen; [intros [= <- <- <-]; exact Hnone|].
  destruct (Z.leb_spec target_count (category_collected loc)) as [|Hlt];
    [intros [= <- <- <-]; exact Hnone|].
  fold fetch_article.
  destruct (fetch_article _ slug st) as [article st1] eqn:Hfetch.
  pose proof (ds_detail_step (absolute base_url href) slug loc st) as Hstep.
  rewrite Hfetch in Hstep.
  destruct article as [doc|].
  - destruct (has_body float_truth (Some doc)).
    + destruct (accept doc _ loc st1) as [loc2 st2] eqn:Hacc.
      intros [= <- <- <-].
      destruct (Hstep loc2 st2 Hlt Hseen eq_refl) as (seg & Htr & Hrun & _).
      exists seg. split; [done|]. exact Hrun.
    + intros [= <- <- <-].
      destruct (Hstep loc st1 Hlt Hseen eq_refl) as (seg & Htr & Hrun & _).
      eauto.
  - intros [= <- <- <-].
    destruct (Hstep loc st1 Hlt Hseen eq_refl) as (seg & Htr & Hrun & _).
    eauto.
Qed.

Lemma ds_scan_links_run slug hrefs : forall loc st loc' st',
  scan_links slug hrefs loc st = (loc', st') ->
  exists seg,
    trace st' = trace st ++ seg
    /\ run target_count (at_loc loc) seg (at_loc loc').
Proof.
  induction hrefs as [|href hrefs IH]; intros loc st loc' st'.
  - intros [= <- <-]. exists []. split; [by rewrite app_nil_r|constructor].
  - cbn [scan_links DailySun.scan_links]. fold scan_link. fold scan_links.
    destruct (scan_link slug href loc st) as [[fl loc1] st1] eqn:Hlink.
    destruct (ds_scan_link_run _ _ _ _ _ _ _ Hlink) as (seg1 & Ht1 & Hr1).
    destruct fl.
    + intros Hrest. destruct (IH _ _ _ _ Hrest) as (seg2 & Ht2 & Hr2).
      exists (seg1 ++ seg2). split.
      * by rewrite Ht2, Ht1, app_assoc.
      * by eapply ds_run_app.
    + intros [= <- <-]. eauto.
    + intros [= <- <-]. eauto.
Qed.

Lemma ds_scan_item_run slug item has_new loc st fl has_new' loc' st' :
  scan_item slug item has_new loc st = (fl, has_new', loc', st') ->
  exists seg,
    trace st' = trace st ++ seg
    /\ run target_count (at_loc loc) seg (at_loc loc')
    /\ page loc' = page loc /\ last_id loc' = last_id loc.
Proof.
  unfold scan_item, DailySun.scan_item.
  assert (Hnone : exists seg,
            trace st = trace st ++ seg
            /\ run target_count (at_loc loc) seg (at_loc loc)
            /\ page loc = page loc /\ last_id loc = last_id loc).
  { exists []. split; [by rewrite app_nil_r|]. split; [constructor|done]. }
  destruct (Z.leb_spec target_count (category_collected loc)) as [|Hlt];
    [intros [= <- <- <- <-]; exact Hnone|].
  destruct item as [| | | | | |members];
    try (intros [= <- <- <- <-]; exact Hnone).
  destruct (negb _); [intros [= <- <- <- <-]; exact Hnone|].
  destruct (default JNull _) as [| | | |item_url| |];
    try (intros [= <- <- <- <-]; exact Hnone).
  case_bool_decide as Hseen; [intros [= <- <- <- <-]; exact Hnone|].
  fold fetch_article.
  destruct (fetch_article _ slug st) as [article st1] eqn:Hfetch.
  pose proof (ds_detail_step (absolute base_url item_url) slug loc st) as Hstep.
  rewrite Hfetch in Hstep.
  pose proof (ds_fetch_article_trace (absolute base_url item_url) slug st) as Ht.
  rewrite Hfetch in Ht. cbn [snd] in Ht.
  destruct article as [doc|].
  - destruct (has_body float_truth (Some doc)).
    + destruct (accept doc _ loc st1) as [loc2 st2] eqn:Hacc.
      intros [= <- <- <- <-].
      destruct (Hstep loc2 st2 Hlt Hseen eq_refl) as (seg & Htr & Hrun & Hp).
      exists seg. repeat split; try done.
      unfold accept in Hacc. by simplify_eq.
    + intros [= <- <- <- <-].
      destruct (Hstep loc st1 Hlt Hseen eq_refl) as (seg & Htr & Hrun & _).
      exists seg. done.
  - intros [= <- <- <- <-].
    destruct (Hstep loc st1 Hlt Hseen eq_refl) as (seg & Htr & Hrun & _).
    exists seg. done.
Qed.

Lemma ds_scan_items_run slug items : forall has_new loc st fl has_new' loc' st',
  scan_items slug items has_new loc st = (fl, has_new', loc', st') ->
  exists seg,
    trace st' = trace st ++ seg
    /\ run target_count (at_loc loc) seg (at_loc loc').
Proof.
  induction items as [|item items IH]; intros has_new loc st fl has_new' loc' st'.
  - intros [= <- <- <- <-]. exists []. split; [by rewrite app_nil_r|constructor].
  - cbn [scan_items DailySun.scan_items]. fold scan_item. fold scan_items.
    destruct (scan_item slug item has_new loc st) as [[[fl1 hn1] loc1] st1] eqn:Hitem.
    destruct (ds_scan_item_run _ _ _ _ _ _ _ _ _ Hitem) as (seg1 & Ht1 & Hr1 & _).
    destruct fl1.
    + intros Hrest. destruct (IH _ _ _ _ _ _ _ Hrest) as (seg2 & Ht2 & Hr2).
      exists (seg1 ++ seg2). split.
      * by rewrite Ht2, Ht1, app_assoc.
      * by eapply ds_run_app.
    + intros [= <- <- <- <-]. eauto.
    + intros [= <- <- <- <-]. eauto.
Qed.

Lemma ds_ajax_loop_run fuel slug cat_id : forall loc st o loc' st',
  ajax_loop fuel slug cat_id loc st = (o, loc', st') ->
  exists seg tail,
    trace st' = trace st ++ seg ++ tail
    /\ run target_count (at_loc loc) seg (at_loc loc')
    /\ closing tail.
Proof.
  induction fuel as [|fuel IH]; intros loc st o loc' st';
    cbn [ajax_loop DailySun.ajax_loop].
  - destruct (_ <=? _)%Z; intros [= <- <- <-];
      exists [], []; (split; [by rewrite app_nil_r|]);
      (split; [constructor|by left]).
  - destruct (Z.leb_spec target_count (category_collected loc)) as [|Hlt].
    { intros [= <- <- <-]. exists [], [].
      split; [by rewrite app_nil_r|]. split; [constructor|by left]. }
    pose proof (ds_fetch_url_trace Listing (ajax_url cat_id loc) st) as Ht.
    destruct (fetch_url net Listing (ajax_url cat_id loc) st) as [resp st1].
    cbn [snd] in Ht.
    assert (Hsay : forall msg,
      exists seg tail,
        trace (emit (EvSay msg) st1) = trace st ++ seg ++ tail
        /\ run target_count (at_loc loc) seg (at_loc loc)
        /\ closing tail).
    { intros msg. exists [EvFetch Listing (ajax_url cat_id loc)], [EvSay msg].
      split; [cbn [emit trace]; rewrite Ht; same_trace|].
      split; [apply run_list; [done|constructor]|right; eauto]. }
    destruct resp as [[|c resp]|]; try (intros [= <- <- <-]; apply Hsay).
    destruct (loads (c :: resp)) as [data|]; [|intros [= <- <- <-]; apply Hsay].
    destruct (negb _); [intros [= <- <- <-]; apply Hsay|].
    destruct data as [| | | | |items|]; try (intros [= <- <- <-]; apply Hsay).
    fold scan_items. fold ajax_loop.
    destruct (scan_items slug items false loc st1)
      as [[[fl has_new] loc1] st2] eqn:Hitems.
    destruct (ds_scan_items_run _ _ _ _ _ _ _ _ _ Hitems) as (seg1 & Ht1 & Hr1).
    assert (Hsay1 : forall msg,
      exists seg tail,
        trace (emit (EvSay msg) st2) = trace st ++ seg ++ tail
        /\ run target_count (at_loc loc) seg (at_loc loc1)
        /\ closing tail).
    { intros msg.
      exists (EvFetch Listing (ajax_url cat_id loc) :: seg1), [EvSay msg].
      split; [cbn [emit trace]; rewrite Ht1, Ht; same_trace|].
      split; [apply run_list; [done|exact Hr1]|right; eauto]. }
    assert (Hmore :
      ajax_loop fuel slug cat_id
        (mkLocals (category_collected loc1) (page loc1 + 1)
                  (seen_urls loc1) (last_id loc1)) st2 = (o, loc', st') ->
      exists seg tail,
        trace st' = trace st ++ seg ++ tail
        /\ run target_count (at_loc loc) seg (at_loc loc')
        /\ closing tail).
    { intros Hloop.
      destruct (IH _ _ _ _ _ Hloop) as (seg2 & tail & Ht2 & Hr2 & Hc).
      exists (EvFetch Listing (ajax_url cat_id loc) :: seg1 ++ seg2), tail.
      split; [rewrite Ht2, Ht1, Ht; same_trace|].
      split; [|done].
      apply run_list; [done|]. eapply ds_run_app; [exact Hr1|exact Hr2]. }
    destruct fl, has_new; try (intros [= <- <- <-]; apply Hsay1); exact Hmore.
Qed.

Lemma ds_crawl_category_shape fuel cat_url st o st' :
  crawl_category fuel cat_url st = (o, st') ->
  exists segment,
    trace st' = trace st ++ segment /\ category_shape segment.
Proof.
  unfold crawl_category, DailySun.crawl_category, get_category_metadata.
  pose proof (ds_fetch_url_trace Discover cat_url
                (emit (EvCategory (last_segment cat_url)) st)) as Ht0.
  destruct (fetch_url net Discover cat_url _) as [content0 st0].
  cbn [snd emit trace] in Ht0.
  assert (Hskip : exists segment,
            trace st0 = trace st ++ segment /\ category_shape segment).
  { eexists. split; [rewrite Ht0; same_trace|].
    exists (last_segment cat_url), cat_url, [], [], [], (0%Z, ∅).
    split; [done|]. split; [by left|]. split; [constructor|by left]. }
  destruct content0 as [[|c0 content0]|]; try (intros [= <- <-]; exact Hskip).
  destruct (re_category_id (c0 :: content0)) as [[|c cat_id']|];
    try (intros [= <- <-]; exact Hskip).
  pose proof (ds_fetch_url_trace Listing cat_url st0) as Ht1.
  destruct (fetch_url net Listing cat_url st0) as [content st1].
  cbn [snd] in Ht1.
  destruct content as [content|].
  - fold scan_links. fold ajax_loop.
    destruct (scan_links _ _ _ st1) as [loc st2] eqn:Hlinks.
    destruct (ds_scan_links_run _ _ _ _ _ _ Hlinks) as (seg1 & Ht2 & Hr1).
    destruct (ajax_loop fuel _ _ loc st2) as [[o' loc'] st3] eqn:Hloop.
    destruct (ds_ajax_loop_run _ _ _ _ _ _ _ _ Hloop)
      as (seg2 & tail & Ht3 & Hr2 & Hc).
    intros [= <- <-].
    eexists. split.
    + rewrite Ht3, Ht2, Ht1, Ht0. same_trace.
    + exists (last_segment cat_url), cat_url, [EvFetch Listing cat_url],
             (seg1 ++ seg2), tail, (at_loc loc').
      split; [same_trace|]. split; [by right|].
      split; [|done]. eapply ds_run_app; [exact Hr1|exact Hr2].
  - intros [= <- <-].
    eexists. split; [rewrite Ht1, Ht0; same_trace|].
    exists (last_segment cat_url), cat_url, [EvFetch Listing cat_url],
           [], [], (0%Z, ∅).
    split; [done|]. split; [by right|]. split; [constructor|by left].
Qed.

Lemma ds_crawl_categories_shape fuel cat_urls : forall st o st',
  crawl_categories fuel cat_urls st = (o, st') ->
  exists segments,
    trace st' = trace st ++ concat segments
    /\ Forall category_shape segments.
Proof.
  induction cat_urls as [|cat_url cat_urls IH]; intros st o st'.
  - intros [= <- <-]. exists []. split; [by rewrite app_nil_r|constructor].
  - cbn [crawl_categories DailySun.crawl_categories].
    fold crawl_category. fold crawl_categories.
    destruct (crawl_category fuel cat_url st) as [o1 st1] eqn:Hcat.
    destruct (ds_crawl_category_shape _ _ _ _ _ Hcat) as (segment & Ht1 & Hs).
    assert (Hstop : (o1, st1) = (o, st') ->
      exists segments,
        trace st' = trace st ++ concat segments
        /\ Forall category_shape segments).
    { intros [= <- <-]. exists [segment].
      split; [cbn; by rewrite app_nil_r|]. by repeat constructor. }
    destruct o1; try exact Hstop.
    intros Hrest. destruct (IH _ _ _ Hrest) as (segments & Ht2 & Hall).
    exists (segment :: segments).
    split; [cbn [concat]; rewrite Ht2, Ht1; same_trace|].
    by constructor.
Qed.

(** The whole run: the file is opened, the categories follow one
    another, and the file is closed unless the run is still going. *)
Lemma ds_crawl_shape fuel :
  exists segments tail,
    trace (snd (crawl fuel)) = EvOpen :: concat segments ++ tail
    /\ Forall category_shape segments
    /\ (tail = [] \/ tail = [EvClose]).
Proof.
  unfold crawl, DailySun.crawl. fold crawl_categories.
  destruct (crawl_categories fuel category_urls _) as [o st'] eqn:Hrun.
  destruct (ds_crawl_categories_shape _ _ _ _ _ Hrun) as (segments & Ht & Hall).
  cbn [emit trace app] in Ht.
  exists segments.
  destruct o; [exists [EvClose]|exists [EvClose]|exists []];
    cbn [snd emit trace]; rewrite Ht; cbn [app];
    rewrite ?app_nil_r; auto.
Qed.

End WithWorld.

End DailySunFacts.

(** ** Runs of the Kaler Kantho spider *)

Section KalerKanthoFacts.

Import KalerKantho KalerKanthoRun.

Lemma kk_run_app target x s1 y s2 z :
  run target x s1 y -> run target y s2 z -> run target x (s1 ++ s2) z.
Proof.
  induction 1; intros H2; cbn [app];
    [done|apply run_list|apply run_miss|apply run_hit]; auto.
Qed.

Lemma kk_run_counts target x seg y :
  run target x seg y -> Forall (count_le target) seg.
Proof.
  induction 1; repeat (apply Forall_cons_2; [cbn; try done; lia|]);
    try done; apply Forall_nil_2.
Qed.

Lemma kk_run_guarded target c seg c' :
  run target c seg c' -> guarded target c seg.
Proof. induction 1; cbn; eauto. Qed.

Lemma kk_run_no_say target x seg y :
  run target x seg y -> Forall (fun e => is_say e = false) seg.
Proof.
  induction 1; repeat (apply Forall_cons_2; [done|]); try done;
    apply Forall_nil_2.
Qed.

Lemma kk_run_count_after target c seg c' :
  run target c seg c' -> count_after c seg = c'.
Proof. induction 1; cbn; eauto. Qed.

Section WithWorld.

Variable net : network.
Variable re_build_id : pystr -> option pystr.
Variable strptime : pystr -> option (Z * Z * Z).
Variable soup_text : pystr -> pystr.
Variable py_str : json -> pystr.
Variable float_truth : pystr -> bool.

Let fetch_article := fetch_article net strptime soup_text py_str float_truth.
Let scan_item := scan_item net strptime soup_text py_str float_truth.
Let scan_items := scan_items net strptime soup_text py_str float_truth.
Let list_loop := list_loop net strptime soup_text py_str float_truth.
Let crawl_categories :=
  crawl_categories net strptime soup_text py_str float_truth.
Let crawl := crawl net re_build_id strptime soup_text py_str float_truth.

Lemma kk_fetch_url_trace site url st :
  trace (snd (fetch_url net site url st)) = trace st ++ [EvFetch site url].
Proof.
  unfold fetch_url. destruct (net _ _) as [|rc out]; [done|].
  by destruct (rc =? 0)%Z.
Qed.

Lemma kk_fetch_article_trace build_id slug date_str n_id st r st' :
  fetch_article build_id slug date_str n_id st = (r, st') ->
  collected_count st' = collected_count st
  /\ (trace st' = trace st
      \/ exists url, trace st' = trace st ++ [EvFetch Detail url]).
Proof.
  unfold fetch_article, KalerKantho.fetch_article.
  destruct date_str as [| | | |date| |]; try (intros [= <- <-]; by auto).
  destruct (strptime date) as [[[year month] day]|];
    [|intros [= <- <-]; by auto].
  match goal with
  | |- context [fetch_url net Detail ?u st] =>
      pose proof (kk_fetch_url_trace Detail u st) as Ht;
      assert (Hc : collected_count (snd (fetch_url net Detail u st))
                   = collected_count st)
        by (unfold fetch_url; destruct (net _ _) as [|rc out]; [done|];
            by destruct (rc =? 0)%Z);
      destruct (fetch_url net Detail u st) as [content st1]
  end.
  cbn [snd] in Ht, Hc.
  intros Heq.
  assert (st' = st1) as ->.
  { revert Heq.
    repeat match goal with
    | |- (_, _) = (_, _) -> _ => intros [= <- <-]; reflexivity
    | |- context [match ?x with _ => _ end] => destruct x
    | |- context [if ?x then _ else _] => destruct x
    end. }
  split; [done|]. right. eauto.
Qed.

Lemma kk_scan_item_run build_id category item c st r c' st' :
  scan_item build_id category item c st = (r, c', st') ->
  exists seg,
    trace st' = trace st ++ seg /\ run category_target c seg c'.
Proof.
  unfold scan_item, KalerKantho.scan_item.
  assert (Hnone : exists seg,
            trace st = trace st ++ seg /\ run category_target c seg c).
  { exists []. split; [by rewrite app_nil_r|constructor]. }
  destruct (Z.leb_spec category_target c) as [|Hlt];
    [intros [= <- <- <-]; exact Hnone|].
  destruct item as [| | | | | |members];
    try (intros [= <- <- <-]; exact Hnone).
  destruct (if truthy float_truth _ then _ else _) as [cat_slug|e];
    [|intros [= <- <- <-]; exact Hnone].
  destruct (_ && _); [|intros [= <- <- <-]; exact Hnone].
  fold fetch_article.
  destruct (fetch_article _ _ _ _ st) as [r1 st1] eqn:Hfetch.
  destruct (kk_fetch_article_trace _ _ _ _ _ _ _ Hfetch) as [Hcc Ht].
  assert (Hmiss : exists seg,
            trace st1 = trace st ++ seg /\ run category_target c seg c).
  { destruct Ht as [Ht|[url Ht]].
    - exists []. split; [by rewrite app_nil_r|constructor].
    - exists [EvFetch Detail url]. split; [done|].
      apply run_miss; [done|constructor]. }
  destruct r1 as [[doc|]|e]; try (intros [= <- <- <-]; exact Hmiss).
  unfold accept, emit. cbn [trace clock collected_count].
  intros [= <- <- <-]. cbn [trace].
  destruct Ht as [Ht|[url Ht]].
  - (* a document always comes from a request *)
    exfalso. revert Hfetch Ht.
    unfold fetch_article, KalerKantho.fetch_article.
    destruct (default JNull (dict_get (py "start_at") members));
      try (intros [= <-]; fail); try discriminate.
    destruct (strptime s) as [[[year month] day]|]; [|discriminate].
    match goal with
    | |- context [fetch_url net Detail ?u st] =>
        pose proof (kk_fetch_url_trace Detail u st) as Ht';
        destruct (fetch_url net Detail u st) as [content st2]
    end.
    cbn [snd] in Ht'. intros Heq Ht.
    assert (st1 = st2) as ->.
    { revert Heq.
      repeat match goal with
      | |- (_, _) = (_, _) -> _ => intros [= <-]; reflexivity
      | |- context [match ?x with _ => _ end] => destruct x
      | |- context [if ?x then _ else _] => destruct x
      end; try discriminate; by intros [= ? <-]. }
    rewrite Ht in Ht'.
    apply (f_equal length) in Ht'. rewrite length_app in Ht'. cbn in Ht'. lia.
  - eexists. split; [rewrite Ht; same_trace|].
    apply run_hit; [done|constructor].
Qed.

Lemma kk_scan_items_run build_id category items : forall c st r c' st',
  scan_items build_id category items c st = (r, c', st') ->
  exists seg,
    trace st' = trace st ++ seg /\ run category_target c seg c'.
Proof.
  induction items as [|item items IH]; intros c st r c' st'.
  - intros [= <- <- <-]. exists []. split; [by rewrite app_nil_r|constructor].
  - cbn [scan_items KalerKantho.scan_items]. fold scan_item. fold scan_items.
    destruct (scan_item build_id category item c st) as [[r1 c1] st1] eqn:Hitem.
    destruct (kk_scan_item_run _ _ _ _ _ _ _ _ Hitem) as (seg1 & Ht1 & Hr1).
    assert (Hstop : (r1, c1, st1) = (r, c', st') ->
      exists seg, trace st' = trace st ++ seg /\ run category_target c seg c').
    { intros [= <- <- <-]. eauto. }
    destruct r1 as [[]|e]; try exact Hstop.
    intros Hrest. destruct (IH _ _ _ _ _ Hrest) as (seg2 & Ht2 & Hr2).
    exists (seg1 ++ seg2). split; [rewrite Ht2, Ht1; same_trace|].
    by eapply kk_run_app.
Qed.

Lemma kk_list_loop_run fuel build_id category : forall page c st o c' st',
  list_loop fuel build_id category page c st = (o, c', st') ->
  exists seg tail,
    trace st' = trace st ++ seg ++ tail
    /\ run category_target c seg c'
    /\ closing tail.
Proof.
  induction fuel as [|fuel IH]; intros page c st o c' st';
    cbn [list_loop KalerKantho.list_loop].
  - destruct (_ <=? _)%Z; intros [= <- <- <-];
      exists [], []; (split; [by rewrite app_nil_r|]);
      (split; [constructor|by left]).
  - destruct (Z.leb_spec category_target c) as [|Hlt].
    { intros [= <- <- <-]. exists [], [].
      split; [by rewrite app_nil_r|]. split; [constructor|by left]. }
    pose proof (kk_fetch_url_trace Listing (list_url build_id category page) st)
      as Ht.
    destruct (fetch_url net Listing _ st) as [content st1]. cbn [snd] in Ht.
    assert (Hsay : forall msg,
      exists seg tail,
        trace (emit (EvSay msg) st1) = trace st ++ seg ++ tail
        /\ run category_target c seg c /\ closing tail).
    { intros msg.
      exists [EvFetch Listing (list_url build_id category page)], [EvSay msg].
      split; [cbn [emit trace]; rewrite Ht; same_trace|].
      split; [apply run_list; [done|constructor]|right; eauto]. }
    assert (Hraise : exists seg tail,
        trace st1 = trace st ++ seg ++ tail
        /\ run category_target c seg c /\ closing tail).
    { exists [EvFetch Listing (list_url build_id category page)], [].
      split; [rewrite Ht; same_trace|].
      split; [apply run_list; [done|constructor]|by left]. }
    destruct content as [[|ch content]|]; try (intros [= <- <- <-]; apply Hsay).
    destruct (loads (ch :: content)) as [data|];
      [|intros [= <- <- <-]; apply Hsay].
    destruct (py_get data _ _) as [page_props|e];
      [|intros [= <- <- <-]; exact Hraise].
    destruct (py_get page_props _ _) as [news_list|e];
      [|intros [= <- <- <-]; exact Hraise].
    destruct (negb _); [intros [= <- <- <-]; apply Hsay|].
    destruct news_list as [| | | | |items|];
      try (intros [= <- <- <-]; exact Hraise).
    fold scan_items. fold list_loop.
    destruct (scan_items build_id category items c st1)
      as [[r c1] st2] eqn:Hitems.
    destruct (kk_scan_items_run _ _ _ _ _ _ _ _ Hitems) as (seg1 & Ht1 & Hr1).
    destruct r as [fl|e].
    + intros Hloop.
      destruct (IH _ _ _ _ _ _ Hloop) as (seg2 & tail & Ht2 & Hr2 & Hc).
      exists (EvFetch Listing (list_url build_id category page) :: seg1 ++ seg2),
             tail.
      split; [rewrite Ht2, Ht1, Ht; same_trace|]. split; [|done].
      apply run_list; [done|]. eapply kk_run_app; [exact Hr1|exact Hr2].
    + intros [= <- <- <-].
      exists (EvFetch Listing (list_url build_id category page) :: seg1), [].
      split; [rewrite Ht1, Ht, app_nil_r; same_trace|].
      split; [apply run_list; [done|exact Hr1]|by left].
Qed.

Lemma kk_crawl_categories_shape fuel build_id cats : forall st o st',
  crawl_categories fuel build_id cats st = (o, st') ->
  exists segments,
    trace st' = trace st ++ concat segments
    /\ Forall category_shape segments.
Proof.
  induction cats as [|category cats IH]; intros st o st'.
  - intros [= <- <-]. exists []. split; [by rewrite app_nil_r|constructor].
  - cbn [crawl_categories KalerKantho.crawl_categories].
    fold list_loop. fold crawl_categories.
    destruct (list_loop fuel build_id category 1 0 (emit (EvCategory category) st))
      as [[o1 c1] st1] eqn:Hloop.
    destruct (kk_list_loop_run _ _ _ _ _ _ _ _ _ Hloop)
      as (seg & tail & Ht1 & Hr & Hc).
    cbn [emit trace] in Ht1.
    assert (Hshape : category_shape (EvCategory category :: seg ++ tail)).
    { exists category, seg, tail, c1. done. }
    assert (Hstop : (o1, st1) = (o, st') ->
      exists segments,
        trace st' = trace st ++ concat segments
        /\ Forall category_shape segments).
    { intros [= <- <-]. exists [EvCategory category :: seg ++ tail].
      split; [cbn [concat]; rewrite app_nil_r, Ht1; same_trace|].
      by repeat constructor. }
    destruct o1; try exact Hstop.
    intros Hrest. destruct (IH _ _ _ Hrest) as (segments & Ht2 & Hall).
    exists ((EvCategory category :: seg ++ tail) :: segments).
    split; [cbn [concat]; rewrite Ht2, Ht1; same_trace|].
    by constructor.
Qed.

(** The whole run: the build identifier is looked up, the file is
    opened, the categories follow one another, and the file is closed
    unless the run is still going. *)
Lemma kk_crawl_shape fuel :
  exists segments tail,
    trace (snd (crawl fuel))
    = EvFetch Discover base_url :: EvOpen :: concat segments ++ tail
    /\ Forall category_shape segments
    /\ (tail = [] \/ tail = [EvClose]).
Proof.
  unfold crawl, KalerKantho.crawl, get_build_id. fold crawl_categories.
  pose proof (kk_fetch_url_trace Discover base_url (mkState 0 [] 0)) as Ht0.
  destruct (fetch_url net Discover base_url _) as [content st0].
  cbn [snd trace app] in Ht0.
  assert (Hgo : forall build_id,
    exists segments tail,
      trace (snd (match crawl_categories fuel build_id categories
                          (emit EvOpen st0) with
                  | (OutOfFuel, st) => (OutOfFuel, st)
                  | (o, st) => (o, emit EvClose st)
                  end))
      = EvFetch Discover base_url :: EvOpen :: concat segments ++ tail
      /\ Forall category_shape segments
      /\ (tail = [] \/ tail = [EvClose])).
  { intros build_id.
    destruct (crawl_categories fuel build_id categories _) as [o st'] eqn:Hrun.
    destruct (kk_crawl_categories_shape _ _ _ _ _ _ Hrun) as (segments & Ht & Hall).
    cbn [emit trace] in Ht. rewrite Ht0 in Ht. cbn [app] in Ht.
    exists segments.
    destruct o; [exists [EvClose]|exists [EvClose]|exists []];
      cbn [snd emit trace]; rewrite Ht; cbn [app];
      rewrite ?app_nil_r; auto. }
  destruct content as [[|ch content]|]; try apply Hgo.
  destruct (contains _ _); [apply Hgo|].
  destruct (re_build_id _); apply Hgo.
Qed.

End WithWorld.

End KalerKanthoFacts.

(** ** Interleavings of the New Age coroutines *)

Section NewAgeFacts.

Import NewAge NewAgeRun.

Section WithWorld.

Variable soup_fields : pystr -> option (pystr * json * pystr).
Variable re_word_count : pystr -> Z.
Variable target_count : Z.
Variable target_categories : list pystr.

Let parse_article := parse_article soup_fields re_word_count.
Let step := step soup_fields re_word_count target_count.
Let reachable := reachable soup_fields re_word_count target_count target_categories.
Let init := init target_categories.

(** In this section the invariant and its parts are those of
    [target_count]. *)
Local Abbreviation task_ok := (NewAgeRun.task_ok target_count).
Local Abbreviation ok_lock := (NewAgeRun.ok_lock target_count).
Local Abbreviation ok_claimed := (NewAgeRun.ok_claimed target_count).
Local Abbreviation ok_pending := (NewAgeRun.ok_pending target_count).
Local Abbreviation ok_saved := (NewAgeRun.ok_saved target_count).
Local Abbreviation ok_doc := (NewAgeRun.ok_doc target_count).
Local Abbreviation inv := (NewAgeRun.inv target_count).
Local Abbreviation inv_counts := (NewAgeRun.inv_counts target_count).
Local Abbreviation inv_tasks := (NewAgeRun.inv_tasks target_count).
Local Abbreviation inv_apart := (NewAgeRun.inv_apart target_count).
Local Abbreviation inv_nodup := (NewAgeRun.inv_nodup target_count).
Local Abbreviation inv_all_urls := (NewAgeRun.inv_all_urls target_count).
Local Abbreviation inv_saved_visited := (NewAgeRun.inv_saved_visited target_count).
Local Abbreviation inv_visited := (NewAgeRun.inv_visited target_count).
Local Abbreviation inv_urls := (NewAgeRun.inv_urls target_count).

Lemma parse_article_url url html category doc :
  parse_article url html category = Some doc -> doc_url doc = Some url.
Proof.
  unfold parse_article, NewAge.parse_article.
  destruct (soup_fields html) as [[[title date] body]|]; [|done].
  destruct (contains _ _); [done|]. destruct (_ <? _)%nat; [done|].
  by intros [= <-].
Qed.

Lemma lookup_set_task s i t p j t' :
  tasks s !! i = Some t ->
  set_task i t p s !! j = Some t' ->
  (j = i /\ t' = mkTask (task_url t) (task_category t) p)
  \/ (j ≠ i /\ tasks s !! j = Some t').
Proof.
  intros Hi. unfold set_task. destruct (decide (j = i)) as [->|Hne].
  - rewrite list_lookup_insert_eq by (by eapply lookup_lt_Some).
    intros [= <-]. by left.
  - rewrite list_lookup_insert_ne by done. by right.
Qed.

Lemma map_url_set_task s i t p :
  tasks s !! i = Some t ->
  List.map task_url (set_task i t p s) = List.map task_url (tasks s).
Proof.
  intros Hi. unfold set_task.
  change (List.map task_url) with (fmap (M:=list) task_url).
  rewrite list_fmap_insert. cbn [task_url].
  apply list_insert_id. by rewrite list_lookup_fmap, Hi.
Qed.

Lemma init_inv ts :
  (0 <= target_count)%Z ->
  Forall (fun t => at_pc t = Start) ts ->
  inv ts (init ts).
Proof.
  intros Htarget Hstart. rewrite Forall_lookup in Hstart.
  split; cbn [init NewAge.init collected_counts tasks visited_urls saved
              saved_urls output_file lock default omap].
  - intros cat n Hn. apply elem_of_list_to_map_2 in Hn.
    apply list_elem_of_fmap in Hn as (c & [= _ ->] & _). lia.
  - intros i t Hi. apply Hstart in Hi.
    split; rewrite Hi; cbn; try done.
  - intros i j ti tj _ Hi Hj. apply Hstart in Hi. apply Hstart in Hj.
    split; rewrite Hi; cbn; done.
  - constructor.
  - done.
  - intros url Hin. by apply elem_of_nil in Hin.
  - intros url Hin. by apply elem_of_empty in Hin.
  - done.
Qed.

Lemma saved_urls_save doc url s counts visited lk ts' :
  doc_url doc = Some url ->
  saved_urls (mkState counts visited (save_document doc (output_file s)) lk ts')
  = saved_urls s ++ [url].
Proof.
  intros Hurl.
  change (saved_urls (mkState counts visited
                        (save_document doc (output_file s)) lk ts'))
    with (omap doc_url (saved s ++ [doc])).
  rewrite omap_app.
  change (omap doc_url [doc])
    with (match doc_url doc with Some u => [u] | None => [] end).
  by rewrite Hurl.
Qed.

Lemma saved_save doc s counts visited lk ts' :
  saved (mkState counts visited (save_document doc (output_file s)) lk ts')
  = saved s ++ [doc].
Proof. reflexivity. Qed.

(** A step that changes nothing but the place of coroutine [i] keeps
    the invariant if the new place asks for nothing new. *)
Lemma move_inv ts s i t p lk :
  inv ts s ->
  tasks s !! i = Some t ->
  (holds_lock p = true -> lk = true) ->
  (lk = false -> forall j tj, j ≠ i -> tasks s !! j = Some tj ->
                 holds_lock (at_pc tj) = false) ->
  (holds_lock p = true -> forall j tj, j ≠ i -> tasks s !! j = Some tj ->
                 holds_lock (at_pc tj) = false) ->
  (claimed p = true -> claimed (at_pc t) = true) ->
  (pending p = true -> pending (at_pc t) = true) ->
  (forall doc, p = Saved doc -> exists doc', at_pc t = Saved doc') ->
  (forall doc, doc_of p = Some doc -> doc_url doc = Some (task_url t)) ->
  inv ts (mkState (collected_counts s) (visited_urls s) (output_file s) lk
                  (set_task i t p s)).
Proof.
  intros Hinv Hi Hlk Hfree Hothers Hcl Hpe Hsv Hdoc.
  pose proof (inv_tasks _ _ Hinv _ _ Hi) as Hti.
  split; cbn [collected_counts visited_urls output_file lock tasks].
  - apply Hinv.
  - intros j tj Hj.
    apply (lookup_set_task _ _ _ _ _ _ Hi) in Hj as [[-> ->]|[Hne Hj]].
    + split; cbn [at_pc task_url task_category lock visited_urls
                  collected_counts].
      * exact Hlk.
      * intros H. apply Hti. by apply Hcl.
      * intros H. apply (ok_pending _ _ Hti). by apply Hpe.
      * intros doc Hp. destruct (Hsv _ Hp) as [doc' Hp'].
        by apply (ok_saved _ _ Hti doc').
      * exact Hdoc.
    + pose proof (inv_tasks _ _ Hinv _ _ Hj) as Htj.
      split; cbn [lock visited_urls collected_counts].
      * intros H. destruct lk; [done|].
        by rewrite (Hfree eq_refl _ _ Hne Hj) in H.
      * apply Htj.
      * apply (ok_pending _ _ Htj).
      * apply (ok_saved _ _ Htj).
      * apply (ok_doc _ _ Htj).
  - intros j k tj tk Hjk Hj Hk.
    apply (lookup_set_task _ _ _ _ _ _ Hi) in Hj as [[-> ->]|[Hnej Hj]];
    apply (lookup_set_task _ _ _ _ _ _ Hi) in Hk as [[-> ->]|[Hnek Hk]];
      try done.
    + pose proof (inv_apart _ _ Hinv _ _ _ _ Hjk Hi Hk) as Hap.
      split; cbn [at_pc task_url].
      * intros H1 H2. by rewrite (Hothers H1 _ _ Hnek Hk) in H2.
      * intros H1 H2. apply Hap; [by apply Hcl|done].
    + pose proof (inv_apart _ _ Hinv _ _ _ _ Hjk Hj Hi) as Hap.
      split; cbn [at_pc task_url].
      * intros H1 H2. by rewrite (Hothers H2 _ _ Hnej Hj) in H1.
      * intros H1 H2. apply Hap; [done|by apply Hcl].
    + by apply (inv_apart _ _ Hinv j k).
  - apply Hinv.
  - apply Hinv.
  - apply Hinv.
  - apply Hinv.
  - rewrite (map_url_set_task _ _ _ _ Hi). apply Hinv.
Qed.

(** The other coroutines are outside the critical sections while
    coroutine [i] is inside one, and while the lock is free. *)
Lemma others_outside ts s i t :
  inv ts s -> tasks s !! i = Some t -> holds_lock (at_pc t) = true ->
  forall j tj, j ≠ i -> tasks s !! j = Some tj -> holds_lock (at_pc tj) = false.
Proof.
  intros Hinv Hi Hhold j tj Hne Hj.
  destruct (holds_lock (at_pc tj)) eqn:Hj'; [|done].
  destruct (apart_lock _ _ (inv_apart _ _ Hinv _ _ _ _ Hne Hj Hi) Hj' Hhold).
Qed.

Lemma all_outside ts s :
  inv ts s -> lock s = false ->
  forall j tj, tasks s !! j = Some tj -> holds_lock (at_pc tj) = false.
Proof.
  intros Hinv Hfree j tj Hj.
  destruct (holds_lock (at_pc tj)) eqn:Hj'; [|done].
  pose proof (ok_lock _ _ (inv_tasks _ _ Hinv _ _ Hj) Hj') as Hl. congruence.
Qed.

Lemma tasks_apart_sym ti tj : tasks_apart ti tj -> tasks_apart tj ti.
Proof.
  intros [H1 H2]. split; [by auto|]. intros Hj Hi Heq. by apply (H2 Hi Hj).
Qed.

(** A step of coroutine [i] keeps the invariant if the new state is
    right for it and for each of the others. *)
Lemma update_inv ts s i t p counts' visited' output' lk :
  let s' := mkState counts' visited' output' lk (set_task i t p s) in
  let t' := mkTask (task_url t) (task_category t) p in
  inv ts s ->
  tasks s !! i = Some t ->
  (forall cat n, counts' !! cat = Some n -> (0 <= n <= target_count)%Z) ->
  task_ok s' t' ->
  (forall j tj, j ≠ i -> tasks s !! j = Some tj ->
                task_ok s' tj /\ tasks_apart t' tj) ->
  NoDup (saved_urls s') ->
  length (saved_urls s') = length (saved s') ->
  (forall url, url ∈ saved_urls s' -> url ∈ visited') ->
  (forall url, url ∈ visited' -> url ∈ List.map task_url ts) ->
  inv ts s'.
Proof.
  intros s' t' Hinv Hi Hcounts Hti Hothers Hnd Hlen Hsv Hvis.
  split; try done.
  - intros j tj Hj. cbn [s' tasks] in Hj.
    apply (lookup_set_task _ _ _ _ _ _ Hi) in Hj as [[-> ->]|[Hne Hj]];
      [done|]. by apply (Hothers j).
  - intros j k tj tk Hjk Hj Hk. cbn [s' tasks] in Hj, Hk.
    apply (lookup_set_task _ _ _ _ _ _ Hi) in Hj as [[-> ->]|[Hnej Hj]];
    apply (lookup_set_task _ _ _ _ _ _ Hi) in Hk as [[-> ->]|[Hnek Hk]];
      try done.
    + by apply (Hothers k).
    + apply tasks_apart_sym. by apply (Hothers j).
    + by apply (inv_apart _ _ Hinv j k).
  - cbn [s' tasks]. rewrite (map_url_set_task _ _ _ _ Hi). apply Hinv.
Qed.

Lemma step_inv ts s s' : inv ts s -> step s s' -> inv ts s'.
Proof.
  intros Hinv Hstep.
  destruct Hstep as
    [ i t n Hi Hpc Hn Hge | i t n Hi Hpc Hn Hlt | i t Hi Hpc Hfree
    | i t Hi Hpc Hin | i t Hi Hpc Hnin | i t script jitter Hi Hpc Hnone
    | i t script jitter c html doc Hi Hpc Hfetch Hparse | i t doc Hi Hpc Hfree
    | i t doc n Hi Hpc Hn Hge | i t doc n Hi Hpc Hn Hlt | i t doc n Hi Hpc Hn ].
  - (* early exit *)
    apply move_inv; try done. intros; by eapply all_outside.
  - (* past the early exit *)
    apply move_inv; try done. intros; by eapply all_outside.
  - (* the lock is taken, first critical section *)
    apply move_inv; try done.
    intros _ j tj Hne Hj. exact (all_outside _ _ Hinv Hfree _ _ Hj).
  - (* the URL was visited *)
    assert (Hhold : holds_lock (at_pc t) = true) by by rewrite Hpc.
    apply move_inv; try done.
    intros _ j tj Hne Hj. exact (others_outside _ _ _ _ Hinv Hi Hhold _ _ Hne Hj).
  - (* the URL is new *)
    assert (Hhold : holds_lock (at_pc t) = true) by by rewrite Hpc.
    pose proof (others_outside _ _ _ _ Hinv Hi Hhold) as Hout.
    apply update_inv; try done; cbn [saved_urls saved output_file].
    + apply Hinv.
    + split; cbn [at_pc task_url lock visited_urls]; try done.
      * intros _. set_solver.
      * intros _ Hsv. apply (inv_saved_visited _ _ Hinv) in Hsv. done.
    + intros j tj Hne Hj. pose proof (inv_tasks _ _ Hinv _ _ Hj) as Htj.
      split.
      * split; cbn [lock visited_urls collected_counts].
        -- intros H. by rewrite (Hout _ _ Hne Hj) in H.
        -- intros H. apply (ok_claimed _ _ Htj) in H. set_solver.
        -- apply (ok_pending _ _ Htj).
        -- apply (ok_saved _ _ Htj).
        -- apply (ok_doc _ _ Htj).
      * split; cbn [at_pc task_url].
        -- done.
        -- intros _ H Heq. apply (ok_claimed _ _ Htj) in H.
           rewrite <- Heq in H. done.
    + apply Hinv.
    + apply Hinv.
    + intros url Hsv. apply (inv_saved_visited _ _ Hinv) in Hsv. set_solver.
    + intros url [->%elem_of_singleton|H]%elem_of_union.
      * rewrite <- (inv_urls _ _ Hinv).
        apply list_elem_of_fmap. exists t. split; [done|].
        by eapply list_elem_of_lookup_2.
      * by apply (inv_visited _ _ Hinv).
  - (* nothing to save *)
    apply move_inv; try done. intros; by eapply all_outside.
  - (* a document to save *)
    apply move_inv; rewrite ?Hpc; try done.
    + intros; by eapply all_outside.
    + intros doc' [= <-]. by eapply parse_article_url.
  - (* the lock is taken, second critical section *)
    pose proof (inv_tasks _ _ Hinv _ _ Hi) as Hti.
    apply move_inv; rewrite ?Hpc; try done.
    + intros _ j tj Hne Hj. exact (all_outside _ _ Hinv Hfree _ _ Hj).
    + intros doc' [= <-]. apply (ok_doc _ _ Hti). by rewrite Hpc.
  - (* the target is met *)
    assert (Hhold : holds_lock (at_pc t) = true) by by rewrite Hpc.
    apply move_inv; try done.
    intros _ j tj Hne Hj. exact (others_outside _ _ _ _ Hinv Hi Hhold _ _ Hne Hj).
  - (* the document is written *)
    assert (Hhold : holds_lock (at_pc t) = true) by by rewrite Hpc.
    pose proof (others_outside _ _ _ _ Hinv Hi Hhold) as Hout.
    pose proof (inv_tasks _ _ Hinv _ _ Hi) as Hti.
    assert (Hurl : doc_url doc = Some (task_url t)).
    { apply (ok_doc _ _ Hti). by rewrite Hpc. }
    assert (Hvis : task_url t ∈ visited_urls s).
    { apply (ok_claimed _ _ Hti). by rewrite Hpc. }
    assert (Hnew : task_url t ∉ saved_urls s).
    { apply (ok_pending _ _ Hti). by rewrite Hpc. }
    apply update_inv; try done;
      rewrite ?(saved_urls_save _ _ _ _ _ _ _ Hurl), ?saved_save.
    + apply Hinv.
    + split; cbn [at_pc task_url task_category lock visited_urls
                  collected_counts]; try done.
      * intros _. by apply (ok_lock _ _ Hti).
      * intros doc' _. eauto.
      * by intros doc' [= <-].
    + intros j tj Hne Hj. pose proof (inv_tasks _ _ Hinv _ _ Hj) as Htj.
      pose proof (inv_apart _ _ Hinv _ _ _ _ Hne Hj Hi) as Hap.
      split.
      * split; cbn [lock visited_urls collected_counts];
          rewrite ?(saved_urls_save _ _ _ _ _ _ _ Hurl).
        -- apply (ok_lock _ _ Htj).
        -- apply Htj.
        -- intros Hp [Hin|Hin%list_elem_of_singleton]%elem_of_app.
           ++ by apply (ok_pending _ _ Htj).
           ++ apply (apart_url _ _ Hap); [|by rewrite Hpc|done].
              by destruct (at_pc tj).
        -- apply (ok_saved _ _ Htj).
        -- apply (ok_doc _ _ Htj).
      * split; cbn [at_pc task_url].
        -- intros _ H. by rewrite (Hout _ _ Hne Hj) in H.
        -- intros _ H Heq. apply (apart_url _ _ Hap); [done|by rewrite Hpc|done].
    + apply NoDup_app. split; [apply Hinv|]. split; [|apply NoDup_singleton].
      intros u Hu Hu'%list_elem_of_singleton. by subst u.
    + rewrite !length_app. cbn [length]. by rewrite (inv_all_urls _ _ Hinv).
    + intros url [Hin | ->%list_elem_of_singleton]%elem_of_app; [|done].
      by apply (inv_saved_visited _ _ Hinv).
    + apply Hinv.
  - (* the document is counted *)
    assert (Hhold : holds_lock (at_pc t) = true) by by rewrite Hpc.
    pose proof (others_outside _ _ _ _ Hinv Hi Hhold) as Hout.
    pose proof (inv_tasks _ _ Hinv _ _ Hi) as Hti.
    destruct (ok_saved _ _ Hti doc Hpc) as (n' & Hn' & Hlt).
    assert (n' = n) as -> by congruence.
    apply update_inv; try done; cbn [saved_urls saved output_file].
    + intros cat m. rewrite lookup_insert. case_decide as Hcat.
      * intros [= <-]. pose proof (inv_counts _ _ Hinv _ _ Hn). lia.
      * apply Hinv.
    + intros j tj Hne Hj. pose proof (inv_tasks _ _ Hinv _ _ Hj) as Htj.
      split.
      * split; cbn [lock visited_urls collected_counts].
        -- intros H. by rewrite (Hout _ _ Hne Hj) in H.
        -- apply Htj.
        -- apply (ok_pending _ _ Htj).
        -- intros doc' Hj'. exfalso.
           pose proof (Hout _ _ Hne Hj) as Ho. by rewrite Hj' in Ho.
        -- apply (ok_doc _ _ Htj).
      * split; cbn [at_pc task_url]; done.
    + apply Hinv.
    + apply Hinv.
    + apply Hinv.
    + apply Hinv.
Qed.

Lemma reachable_inv ts s :
  (0 <= target_count)%Z ->
  Forall (fun t => at_pc t = Start) ts ->
  reachable ts s -> inv ts s.
Proof.
  intros Htarget Hstart. induction 1 as [|s s' _ IH Hstep].
  - by apply init_inv.
  - by eapply step_inv.
Qed.

Lemma crawl_tasks_start sitemaps :
  Forall (fun t => at_pc t = Start)
         (crawl_tasks target_categories sitemaps).
Proof.
  unfold crawl_tasks. apply Forall_flat_map, Forall_forall. intros cat _.
  apply Forall_forall. intros t Hin.
  apply list_elem_of_fmap in Hin as (url & -> & _). done.
Qed.

(** The seen set only grows. *)
Lemma step_visited_mono s s' : step s s' -> visited_urls s ⊆ visited_urls s'.
Proof. destruct 1; cbn [visited_urls]; set_solver. Qed.

(** The output file is only appended to. *)
Lemma step_saved_mono s s' : step s s' -> saved s `prefix_of` saved s'.
Proof.
  destruct 1; cbn [saved output_file]; try done.
  unfold save_document. cbn [default]. by apply prefix_app_r.
Qed.

End WithWorld.

End NewAgeFacts.

(** ** One category of a sequential spider *)

Lemma split_after_head (head rest a : list event) e b :
  head ++ rest = a ++ e :: b -> e ∉ head ->
  exists a', a = head ++ a' /\ rest = a' ++ e :: b.
Proof.
  revert a. induction head as [|h head IH]; intros a Heq Hnot.
  - exists a. done.
  - destruct a as [|x a]; simplify_eq/=; [set_solver|].
    destruct (IH a) as (a' & -> & ->); [done|set_solver|].
    eauto.
Qed.

Lemma split_before_tail (seg tail a : list event) e b :
  seg ++ tail = a ++ e :: b -> e ∉ tail ->
  exists b', seg = a ++ e :: b' /\ b = b' ++ tail.
Proof.
  revert a. induction seg as [|x seg IH]; intros a Heq Hnot.
  - cbn in Heq. subst tail. set_solver.
  - destruct a as [|y a]; simplify_eq/=; [eauto|].
    destruct (IH a) as (b' & -> & ->); [done|done|]. eauto.
Qed.

Lemma run_le target c seen seg c' seen' :
  DailySunRun.run target (c, seen) seg (c', seen') ->
  (c <= target)%Z -> (c' <= target)%Z.
Proof.
  intros H. remember (c, seen) as x eqn:Hx. remember (c', seen') as y eqn:Hy.
  revert c seen Hx. induction H; intros c0 seen0 Hx Hle; simplify_eq;
    eauto; eapply IHrun; eauto; lia.
Qed.

Section DailySunCategory.

Variable target : Z.
Variable segment : list event.
Hypothesis Hshape : DailySunRun.category_shape target segment.

Lemma daily_sun_counts : Forall (count_le target) segment.
Proof.
  destruct Hshape as (slug & url & listed & seg & tail & y & -> & Hl & Hrun & Hc).
  do 2 (apply Forall_cons_2; [done|]).
  apply Forall_app_2; [by destruct Hl as [->| ->]; repeat constructor|].
  apply Forall_app_2; [by eapply ds_run_counts|].
  destruct Hc as [->|[m ->]]; by repeat constructor.
Qed.

Lemma daily_sun_detail_guard a url b :
  segment = a ++ EvFetch Detail url :: b ->
  (count_after 0 a < target)%Z /\ url ∉ seen_of a.
Proof.
  destruct Hshape as (slug & u & listed & seg & tail & [c' seen'] & -> & Hl & Hrun & Hc).
  intros Heq.
  change (EvCategory slug :: EvFetch Discover u :: listed ++ seg ++ tail)
    with ((EvCategory slug :: EvFetch Discover u :: listed) ++ seg ++ tail)
    in Heq.
  apply split_after_head in Heq as (a' & -> & Heq);
    [|destruct Hl as [->| ->]; set_solver].
  apply split_before_tail in Heq as (b' & Hseg & _);
    [|destruct Hc as [->|[m ->]]; set_solver].
  subst seg.
  pose proof (ds_run_guarded _ _ _ _ _ Hrun) as Hg.
  pose proof (ds_run_fresh _ _ _ _ _ Hrun) as Hf.
  apply guarded_split in Hg; [|done].
  apply fresh_split in Hf as [_ Hf].
  rewrite count_after_app. unfold seen_of. rewrite omap_app.
  destruct Hl as [->| ->]; cbn; done.
Qed.

Lemma daily_sun_say_last a msg b :
  segment = a ++ EvSay msg :: b -> b = [].
Proof.
  destruct Hshape as (slug & u & listed & seg & tail & y & -> & Hl & Hrun & Hc).
  intros Heq.
  apply (last_of_closed
           (EvCategory slug :: EvFetch Discover u :: listed ++ seg) tail a msg b);
    [|done|by rewrite <- Heq; same_trace].
  do 2 (apply Forall_cons_2; [done|]).
  apply Forall_app_2; [by destruct Hl as [->| ->]; repeat constructor|].
  by eapply ds_run_no_say.
Qed.

Lemma daily_sun_seen :
  NoDup (seen_of segment)
  /\ length (writes_of segment) = length (seen_of segment)
  /\ seen_of segment ⊆ details_of segment
  /\ ((0 <= target)%Z -> (Z.of_nat (length (seen_of segment)) <= target)%Z).
Proof.
  destruct Hshape as (slug & u & listed & seg & tail & [c' seen'] & -> & Hl & Hrun & Hc).
  destruct (ds_run_seen _ _ _ _ _ _ Hrun)
    as (Hnd & _ & _ & Hcount & Hw & Hd).
  assert (Hseen : seen_of (EvCategory slug :: EvFetch Discover u
                             :: listed ++ seg ++ tail) = seen_of seg).
  { unfold seen_of. cbn [omap list_omap]. rewrite !omap_app.
    destruct Hl as [->| ->], Hc as [->|[m ->]]; cbn; by rewrite ?app_nil_r. }
  assert (Hwrites : writes_of (EvCategory slug :: EvFetch Discover u
                                 :: listed ++ seg ++ tail) = writes_of seg).
  { unfold writes_of. cbn [omap list_omap]. rewrite !omap_app.
    destruct Hl as [->| ->], Hc as [->|[m ->]]; cbn; by rewrite ?app_nil_r. }
  assert (Hdetails : details_of (EvCategory slug :: EvFetch Discover u
                                   :: listed ++ seg ++ tail) = details_of seg).
  { unfold details_of. cbn [omap list_omap]. rewrite !omap_app.
    destruct Hl as [->| ->], Hc as [->|[m ->]]; cbn; by rewrite ?app_nil_r. }
  rewrite Hseen, Hwrites, Hdetails.
  repeat split; try done.
  intros Htarget. pose proof (run_le _ _ _ _ _ _ Hrun Htarget) as Hle.
  clear Hrun Hshape. lia.
Qed.

End DailySunCategory.

Lemma kk_run_le target c seg c' :
  KalerKanthoRun.run target c seg c' -> (c <= target)%Z -> (c' <= target)%Z.
Proof. induction 1; intros Hle; eauto; apply IHrun; lia. Qed.

Section KalerKanthoCategory.

Variable segment : list event.
Hypothesis Hshape : KalerKanthoRun.category_shape segment.

Lemma kaler_kantho_counts :
  Forall (count_le KalerKantho.category_target) segment.
Proof.
  destruct Hshape as (category & seg & tail & c' & -> & Hrun & Hc).
  apply Forall_cons_2; [done|].
  apply Forall_app_2; [by eapply kk_run_counts|].
  destruct Hc as [->|[m ->]]; by repeat constructor.
Qed.

Lemma kaler_kantho_detail_guard a url b :
  segment = a ++ EvFetch Detail url :: b ->
  (count_after 0 a < KalerKantho.category_target)%Z.
Proof.
  destruct Hshape as (category & seg & tail & c' & -> & Hrun & Hc).
  intros Heq.
  change (EvCategory category :: seg ++ tail)
    with ([EvCategory category] ++ seg ++ tail) in Heq.
  apply split_after_head in Heq as (a' & -> & Heq); [|set_solver].
  apply split_before_tail in Heq as (b' & Hseg & _);
    [|destruct Hc as [->|[m ->]]; set_solver].
  subst seg.
  pose proof (kk_run_guarded _ _ _ _ Hrun) as Hg.
  apply guarded_split in Hg; [|done]. done.
Qed.

Lemma kaler_kantho_say_last a msg b :
  segment = a ++ EvSay msg :: b -> b = [].
Proof.
  destruct Hshape as (category & seg & tail & c' & -> & Hrun & Hc).
  intros Heq.
  apply (last_of_closed (EvCategory category :: seg) tail a msg b);
    [|done|by rewrite <- Heq].
  apply Forall_cons_2; [done|]. by eapply kk_run_no_say.
Qed.

End KalerKanthoCategory.

(** ** [parse_api] of Prothom Alo *)

Section ProthomAloApi.

Import ProthomAlo.

Variable urljoin : pystr -> pystr -> pystr.
Variable float_truth : pystr -> bool.

Let scan_entries := scan_entries urljoin float_truth.
Let parse_api := parse_api urljoin float_truth.

Lemma scan_entry_seen resp entry sp out sp' :
  scan_entry urljoin float_truth resp entry sp = Ok (out, sp') ->
  items_seen sp' = (items_seen sp + 1)%Z /\ is_listing out = false.
Proof.
  unfold scan_entry.
  repeat case_match; try done; by intros [= <- <-].
Qed.

Lemma scan_entries_bound resp entries : forall sp outs e sp',
  scan_entries resp entries sp = (outs, e, sp') ->
  (items_seen sp <= items_seen sp')%Z
  /\ ((items_seen sp <= max_items)%Z -> (items_seen sp' <= max_items)%Z)
  /\ (Z.of_nat (length (List.filter is_detail outs))
      <= items_seen sp' - items_seen sp)%Z.
Proof.
  induction entries as [|entry entries IH]; intros sp outs e sp';
    cbn [scan_entries ProthomAlo.scan_entries].
  - intros [= <- <- <-]. cbn. lia.
  - destruct (Z.leb_spec max_items (items_seen sp)) as [Hmax|Hlt].
    { intros [= <- <- <-]. cbn. lia. }
    destruct (scan_entry urljoin float_truth resp entry sp)
      as [[out sp1]|err] eqn:Hentry; [|intros [= <- <- <-]; cbn; lia].
    destruct (scan_entry_seen _ _ _ _ _ Hentry) as [Hseen _].
    fold scan_entries.
    destruct (scan_entries resp entries sp1) as [[outs1 e1] sp2] eqn:Hrest.
    intros [= <- <- <-].
    destruct (IH _ _ _ _ Hrest) as (H1 & H2 & H3).
    cbn [List.filter length]. destruct (is_detail out); cbn [length]; lia.
Qed.

(** Once [items_seen] has reached [max_items], [parse_api] yields
    nothing: no article request and no request for a next page. *)
Lemma parse_api_at_max resp sp :
  (max_items <= items_seen sp)%Z ->
  fst (fst (parse_api resp sp)) = [].
Proof.
  intros Hmax. unfold parse_api, ProthomAlo.parse_api.
  destruct (loads _) as [data|]; [|done].
  destruct (ProthomAlo.py_get data _ _) as [items|]; [|done].
  destruct (negb _) eqn:Htruthy; [done|].
  destruct items as [| | | | |entries|]; try done.
  - destruct (_ <=? _)%Z; done.
  - destruct entries as [|entry entries].
    + cbn in Htruthy. done.
    + cbn [ProthomAlo.scan_entries].
      destruct (Z.leb_spec max_items (items_seen sp)); [done|lia].
  - destruct (_ <=? _)%Z; done.
Qed.

(** When the API answers with no items, [parse_api] yields nothing. *)
Lemma parse_api_no_items resp sp data items :
  loads (resp_text resp) = Some data ->
  ProthomAlo.py_get data (py "items") (JArr []) = Ok items ->
  truthy float_truth items = false ->
  parse_api resp sp = ([], None, sp).
Proof.
  intros Hloads Hget Hfalse. unfold parse_api, ProthomAlo.parse_api.
  by rewrite Hloads, Hget, Hfalse.
Qed.

(** A request for the next page is the last thing [parse_api] yields,
    and it yields one only after going through every entry. *)
Lemma parse_api_requests resp sp outs e sp' :
  parse_api resp sp = (outs, e, sp') ->
  (items_seen sp <= items_seen sp')%Z
  /\ ((items_seen sp <= max_items)%Z -> (items_seen sp' <= max_items)%Z)
  /\ (Z.of_nat (length (List.filter is_detail outs))
      <= items_seen sp' - items_seen sp)%Z.
Proof.
  unfold parse_api, ProthomAlo.parse_api.
  assert (Hnone : ([] : list output, e, sp) = (outs, e, sp') ->
    (items_seen sp <= items_seen sp')%Z
    /\ ((items_seen sp <= max_items)%Z -> (items_seen sp' <= max_items)%Z)
    /\ (Z.of_nat (length (List.filter is_detail outs))
        <= items_seen sp' - items_seen sp)%Z).
  { intros [= <- <-]. cbn. lia. }
  destruct (loads _) as [data|]; [|intros [= <- <- <-]; cbn; lia].
  destruct (ProthomAlo.py_get data _ _) as [items|];
    [|intros [= <- <- <-]; cbn; lia].
  destruct (negb _); [intros [= <- <- <-]; cbn; lia|].
  destruct items as [| | | | |entries|];
    try (intros [= <- <- <-]; cbn; lia);
    try (destruct (_ <=? _)%Z; intros [= <- <- <-]; cbn; lia).
  apply scan_entries_bound.
Qed.

End ProthomAloApi.

(** ** The count of a category and its target *)

Lemma concat_counts target segments :
  Forall (fun segment => Forall (count_le target) segment) segments ->
  Forall (count_le target) (concat segments).
Proof.
  induction 1; cbn [concat]; [constructor|]. by apply Forall_app_2.
Qed.

Lemma daily_sun_crawl_counts net re_category_id re_last_id soup_hrefs
    re_id_segment detail_title detail_date detail_body_text float_truth
    target_count fuel :
  Forall (count_le target_count)
    (trace (snd (DailySun.crawl net re_category_id re_last_id soup_hrefs
                   re_id_segment detail_title detail_date detail_body_text
                   float_truth target_count fuel))).
Proof.
  destruct (ds_crawl_shape net re_category_id re_last_id soup_hrefs
              re_id_segment detail_title detail_date detail_body_text
              float_truth target_count fuel)
    as (segments & tail & -> & Hall & Htail).
  apply Forall_cons_2; [done|]. apply Forall_app_2.
  - apply concat_counts. eapply Forall_impl; [exact Hall|].
    intros segment Hs. by apply daily_sun_counts.
  - destruct Htail as [->| ->]; by repeat constructor.
Qed.

Lemma kaler_kantho_crawl_counts net re_build_id strptime soup_text py_str
    float_truth fuel :
  Forall (count_le KalerKantho.category_target)
    (trace (snd (KalerKantho.crawl net re_build_id strptime soup_text py_str
                   float_truth fuel))).
Proof.
  destruct (kk_crawl_shape net re_build_id strptime soup_text
              py_str float_truth fuel)
    as (segments & tail & -> & Hall & Htail).
  do 2 (apply Forall_cons_2; [done|]). apply Forall_app_2.
  - apply concat_counts. eapply Forall_impl; [exact Hall|].
    intros segment Hs. by apply kaler_kantho_counts.
  - destruct Htail as [->| ->]; by repeat constructor.
Qed.

(** C1. Within each category of a run, the number of documents
    collected for that category never exceeds the target of a
    category: [target_count] in New Age, in every state any
    interleaving of its coroutines can reach, and in Daily Sun;
    the fixed 150 in Kaler Kantho.  (The counter is recorded at each
    increment; it starts at 0, hence the condition on the target.) *)
Theorem C1_category_count_bounded target_count :
  (0 <= target_count)%Z ->
  (forall soup_fields re_word_count target_categories sitemaps s,
     NewAge.reachable soup_fields re_word_count target_count target_categories
       (NewAge.crawl_tasks target_categories sitemaps) s ->
     forall cat n,
       NewAge.collected_counts s !! cat = Some n ->
       (0 <= n <= target_count)%Z)
  /\ (forall net re_category_id re_last_id soup_hrefs re_id_segment
        detail_title detail_date detail_body_text float_truth fuel,
        Forall (count_le target_count)
          (trace (snd (DailySun.crawl net re_category_id re_last_id soup_hrefs
                         re_id_segment detail_title detail_date
                         detail_body_text float_truth target_count fuel))))
  /\ (forall net re_build_id strptime soup_text py_str float_truth fuel,
        Forall (count_le KalerKantho.category_target)
          (trace (snd (KalerKantho.crawl net re_build_id strptime soup_text
                         py_str float_truth fuel)))).
Proof.
  intros Htarget. split; [|split].
  - intros soup_fields re_word_count target_categories sitemaps s Hreach.
    apply (NewAgeRun.inv_counts target_count
             (NewAge.crawl_tasks target_categories sitemaps)).
    eapply reachable_inv; [done| |exact Hreach].
    apply crawl_tasks_start.
  - intros. apply daily_sun_crawl_counts.
  - intros. apply kaler_kantho_crawl_counts.
Qed.

Lemma C1_witness :
  (0 <= 1)%Z
  /\ Forall (count_le 1)
       (trace (snd (DailySunWorld.crawl (py "[]") (py "Some text") 1 1))).
Proof.
  split; [lia|].
  destruct (C1_category_count_bounded 1 ltac:(lia)) as (_ & Hdaily & _).
  apply Hdaily.
Defined.

(** C1, as stated, fails: in a Daily Sun run with [target_count = 1]
    over a site with one article in each of two categories, the run
    ends with [collected_count = 2]. *)
Lemma C1_total_exceeds_target :
  let run := DailySunWorld.crawl (py "[]") (py "Some text") 1 1 in
  fst run = Finished
  /\ collected_count (snd run) = 2%Z
  /\ trace (snd run) !! 15%nat = Some (EvCount 1 2)
  /\ ~ (collected_count (snd run) <= 1)%Z.
Proof. vm_compute. repeat split; try done. Qed.

(** ** Deduplication *)

Lemma nodup_length_le (l k : list pystr) :
  NoDup l -> (forall x, x ∈ l -> x ∈ k) ->
  (length l <= size (list_to_set k : gset pystr))%nat.
Proof.
  intros Hnd Hsub.
  rewrite <- (size_list_to_set (C:=gset pystr) l) by done.
  apply subseteq_size. set_solver.
Qed.

Lemma daily_sun_category_dedup net re_category_id re_last_id soup_hrefs
    re_id_segment detail_title detail_date detail_body_text float_truth
    target_count fuel cat_url st :
  (0 <= target_count)%Z ->
  exists segment,
    trace (snd (DailySun.crawl_category net re_category_id re_last_id
                  soup_hrefs re_id_segment detail_title detail_date
                  detail_body_text float_truth target_count fuel cat_url st))
    = trace st ++ segment
    /\ NoDup (seen_of segment)
    /\ length (writes_of segment) = length (seen_of segment)
    /\ (Z.of_nat (length (seen_of segment)) <= target_count)%Z
    /\ (length (seen_of segment)
        <= size (list_to_set (details_of segment) : gset pystr))%nat
    /\ (forall a url b,
          segment = a ++ EvFetch Detail url :: b -> url ∉ seen_of a).
Proof.
  intros Htarget.
  destruct (DailySun.crawl_category _ _ _ _ _ _ _ _ _ _ fuel cat_url st)
    as [o st'] eqn:Hcat.
  destruct (ds_crawl_category_shape _ _ _ _ _ _ _ _ _ _ _ _ _ _ _ Hcat)
    as (segment & Ht & Hshape).
  destruct (daily_sun_seen _ _ Hshape) as (Hnd & Hw & Hd & Hle).
  exists segment. split; [done|]. split; [done|]. split; [done|].
  split; [by apply Hle|]. split.
  - apply nodup_length_le; [done|]. intros x Hx. by apply Hd.
  - intros a url b Heq. by apply (daily_sun_detail_guard _ _ Hshape a url b).
Qed.

(** C2. In New Age, in every state any interleaving of the coroutines
    can reach, and in each category of Daily Sun: a URL is persisted
    and counted at most once; the seen set only grows and the output
    is only appended to; the number of documents accepted is at most
    the number of distinct candidates, and at most the target.  (A
    candidate whose fetch or extraction fails is not accepted, so the
    bound need not be reached; Kaler Kantho keeps no seen set.) *)
Theorem C2_each_url_accepted_at_most_once target_count :
  (0 <= target_count)%Z ->
  (forall soup_fields re_word_count target_categories sitemaps s,
     let ts := NewAge.crawl_tasks target_categories sitemaps in
     NewAge.reachable soup_fields re_word_count target_count target_categories
       ts s ->
     NoDup (NewAgeRun.saved_urls s)
     /\ length (NewAgeRun.saved s) = length (NewAgeRun.saved_urls s)
     /\ (length (NewAgeRun.saved s)
         <= size (list_to_set (List.map NewAge.task_url ts) : gset pystr))%nat
     /\ (forall cat n,
           NewAge.collected_counts s !! cat = Some n -> (n <= target_count)%Z)
     /\ (forall s',
           NewAge.step soup_fields re_word_count target_count s s' ->
           NewAge.visited_urls s ⊆ NewAge.visited_urls s'
           /\ NewAgeRun.saved s `prefix_of` NewAgeRun.saved s'))
  /\ (forall net re_category_id re_last_id soup_hrefs re_id_segment
        detail_title detail_date detail_body_text float_truth fuel cat_url st,
        exists segment,
          trace (snd (DailySun.crawl_category net re_category_id re_last_id
                        soup_hrefs re_id_segment detail_title detail_date
                        detail_body_text float_truth target_count fuel
                        cat_url st))
          = trace st ++ segment
          /\ NoDup (seen_of segment)
          /\ length (writes_of segment) = length (seen_of segment)
          /\ (Z.of_nat (length (seen_of segment)) <= target_count)%Z
          /\ (length (seen_of segment)
              <= size (list_to_set (details_of segment) : gset pystr))%nat
          /\ (forall a url b,
                segment = a ++ EvFetch Detail url :: b -> url ∉ seen_of a)).
Proof.
  intros Htarget. split.
  - intros soup_fields re_word_count target_categories sitemaps s ts Hreach.
    assert (Hinv : NewAgeRun.inv target_count ts s).
    { eapply reachable_inv; [done| |exact Hreach].
      apply crawl_tasks_start. }
    split; [apply Hinv|]. split; [symmetry; apply Hinv|].
    split; [|split].
    + rewrite <- (NewAgeRun.inv_all_urls _ _ _ Hinv).
      apply nodup_length_le; [apply Hinv|].
      intros url Hurl. apply (NewAgeRun.inv_visited _ _ _ Hinv).
      by apply (NewAgeRun.inv_saved_visited _ _ _ Hinv).
    + intros cat n Hn.
      by destruct (NewAgeRun.inv_counts _ _ _ Hinv _ _ Hn).
    + intros s' Hstep. split.
      * by eapply step_visited_mono.
      * by eapply step_saved_mono.
  - intros. by apply daily_sun_category_dedup.
Qed.

Lemma C2_witness :
  (0 <= 1)%Z
  /\ exists segment,
       trace (snd (DailySunWorld.crawl_category (py "[]") (py "Some text") 1 1
                     (py "https://www.daily-sun.com/sports")
                     (mkState 0 [] 0)))
       = [] ++ segment
       /\ NoDup (seen_of segment)
       /\ length (writes_of segment) = length (seen_of segment)
       /\ (Z.of_nat (length (seen_of segment)) <= 1)%Z
       /\ (length (seen_of segment)
           <= size (list_to_set (details_of segment) : gset pystr))%nat
       /\ (forall a url b,
             segment = a ++ EvFetch Detail url :: b -> url ∉ seen_of a).
Proof.
  split; [lia|].
  destruct (C2_each_url_accepted_at_most_once 1 ltac:(lia)) as [_ Hdaily].
  apply (Hdaily (DailySunWorld.net (py "[]") (py "Some text"))).
Defined.

(** C2, as stated, fails.  Kaler Kantho has no guard: an article
    listed twice is requested twice and written twice.  And in Daily
    Sun a candidate without a body is not accepted: with two distinct
    candidates and a target of 150 nothing is accepted. *)
Lemma C2_duplicate_is_accepted_twice :
  (let tr := trace (snd (KalerKanthoWorld.crawl KalerKanthoWorld.with_body 2)) in
   take 2 (details_of tr) = [kk_detail_url; kk_detail_url]
   /\ take 2 (writes_of tr)
      = [dumps (kk_article (py "text")) ++ [10];
         dumps (kk_article (py "text")) ++ [10]])
  /\ (let tr := trace (snd (DailySunWorld.crawl (py "[]") [] 150 1)) in
      size (list_to_set (details_of tr) : gset pystr) = 2%nat
      /\ writes_of tr = []).
Proof. vm_compute. repeat split; reflexivity. Qed.

(** ** Records without a body *)

(** C3. Kaler Kantho writes the record of an article whose
    [n_details] is empty: its body is the empty string and it has no
    content-type field.  The article callback of Prothom Alo yields a
    record tagged full-article with an empty body when the page has no
    paragraph. *)
Theorem C3_empty_body_is_persisted :
  (let tr := trace (snd (KalerKanthoWorld.crawl KalerKanthoWorld.without_body 2)) in
   head (writes_of tr) = Some (dumps (kk_article []) ++ [10])
   /\ (exists members,
         kk_article [] = JObj members
         /\ dict_get (py "body") members = Some (JStr [])
         /\ dict_get (py "content_type") members = None))
  /\ (exists members,
        ProthomAlo.parse_article (fun _ => []) (fun _ => None) bare_page
        = [ProthomAlo.Item (JObj members)]
        /\ dict_get (py "body") members = Some (JStr [])
        /\ dict_get (py "content_type") members
           = Some (JStr (py "full-article"))).
Proof.
  split.
  - split; [vm_compute; reflexivity|]. eexists. split; [reflexivity|].
    split; vm_compute; reflexivity.
  - eexists. split; [reflexivity|]. split; vm_compute; reflexivity.
Qed.

(** C5. Kaler Kantho opens its output file for writing, which
    truncates it, and writes one line per article, yet it never
    flushes: after two articles both lines are still in the buffer and
    the file on disk is empty. *)
Theorem C5_kaler_kantho_never_flushes :
  let tr := trace (snd (KalerKanthoWorld.crawl KalerKanthoWorld.with_body 2)) in
  let line := dumps (kk_article (py "text")) ++ [10] in
  tr !! 1%nat = Some EvOpen
  /\ writes_of (take 10 tr) = [line; line]
  /\ file_after (mkFile (py "old") []) (take 10 tr) = mkFile [] (line ++ line)
  /\ List.filter is_flush tr = []
  /\ Forall (fun text => List.filter (N.eqb 10) text = [10]) (writes_of tr).
Proof.
  cbv zeta. split; [vm_compute; reflexivity|].
  split; [vm_compute; reflexivity|]. split; [vm_compute; reflexivity|].
  split; [vm_compute; reflexivity|].
  apply Forall_forall. intros text Hin.
  vm_compute in Hin.
  repeat (apply elem_of_cons in Hin as [-> |Hin]; [vm_compute; reflexivity|]).
  by apply elem_of_nil in Hin.
Qed.

(** ** Where a category stops *)

(** C9. In Daily Sun and in Kaler Kantho each category stops by
    itself: once a list step ends the category (nothing fetched, no
    data, nothing new), nothing more is requested for that category,
    and an article is requested only while the count of the category
    is below the target of a category.  In Prothom Alo [parse_api]
    yields no request at all when the API returns no items or when
    [items_seen] has reached [max_items], and otherwise it never takes
    [items_seen] beyond [max_items]. *)
Theorem C9_each_category_stops :
  (forall net re_category_id re_last_id soup_hrefs re_id_segment detail_title
      detail_date detail_body_text float_truth target_count fuel cat_url st,
      exists segment,
        trace (snd (DailySun.crawl_category net re_category_id re_last_id
                      soup_hrefs re_id_segment detail_title detail_date
                      detail_body_text float_truth target_count fuel
                      cat_url st))
        = trace st ++ segment
        /\ category_stops target_count segment)
  /\ (forall net strptime soup_text py_str float_truth fuel build_id category st,
        exists segment,
          trace (snd (KalerKantho.list_loop net strptime soup_text py_str
                        float_truth fuel build_id category 1 0
                        (emit (EvCategory category) st)))
          = trace st ++ segment
          /\ category_stops KalerKantho.category_target segment)
  /\ (forall urljoin float_truth resp sp,
        ((ProthomAlo.max_items <= ProthomAlo.items_seen sp)%Z ->
         fst (fst (ProthomAlo.parse_api urljoin float_truth resp sp)) = [])
        /\ (forall data items,
              loads (ProthomAlo.resp_text resp) = Some data ->
              ProthomAlo.py_get data (py "items") (JArr []) = Ok items ->
              truthy float_truth items = false ->
              ProthomAlo.parse_api urljoin float_truth resp sp = ([], None, sp))
        /\ ((ProthomAlo.items_seen sp <= ProthomAlo.max_items)%Z ->
            (ProthomAlo.items_seen
               (snd (ProthomAlo.parse_api urljoin float_truth resp sp))
             <= ProthomAlo.max_items)%Z)).
Proof.
  split; [|split].
  - intros.
    destruct (DailySun.crawl_category _ _ _ _ _ _ _ _ _ _ fuel cat_url st)
      as [o st'] eqn:Hcat.
    destruct (ds_crawl_category_shape _ _ _ _ _ _ _ _ _ _ _ _ _ _ _ Hcat)
      as (segment & Ht & Hshape).
    exists segment. split; [done|]. split.
    + intros a msg b. by apply (daily_sun_say_last _ _ Hshape).
    + intros a url b Heq.
      by destruct (daily_sun_detail_guard _ _ Hshape a url b Heq).
  - intros.
    destruct (KalerKantho.list_loop _ _ _ _ _ fuel build_id category 1 0 _)
      as [[o c'] st'] eqn:Hloop.
    destruct (kk_list_loop_run _ _ _ _ _ _ _ _ _ _ _ _ _ _ Hloop)
      as (seg & tail & Ht & Hrun & Hc).
    cbn [emit trace] in Ht.
    assert (Hshape : KalerKanthoRun.category_shape
                       (EvCategory category :: seg ++ tail)).
    { exists category, seg, tail, c'. done. }
    exists (EvCategory category :: seg ++ tail).
    split; [cbn [snd]; rewrite Ht; same_trace|]. split.
    + intros a msg b. by apply (kaler_kantho_say_last _ Hshape).
    + intros a url b. by apply (kaler_kantho_detail_guard _ Hshape).
  - intros. split; [apply parse_api_at_max|].
    split; [intros data items; apply parse_api_no_items|].
    destruct (ProthomAlo.parse_api urljoin float_truth resp sp)
      as [[outs e] sp'] eqn:Hparse.
    by destruct (parse_api_requests _ _ _ _ _ _ _ Hparse) as (_ & H & _).
Qed.

(** C9, as stated, fails for Daily Sun.  With a target of 2 the first
    category ends on an empty list, and the next category requests its
    list all the same; with a target of 1 the count reaches the target
    in the first category, and the next category requests an article
    all the same. *)
Lemma C9_next_category_goes_on :
  (let tr := trace (snd (DailySunWorld.crawl (py "[]") (py "Some text") 2 1)) in
   tr !! 10%nat = Some (EvSay (py "  No more data."))
   /\ tr !! 13%nat
      = Some (EvFetch Listing (py "https://www.daily-sun.com/sports")))
  /\ (let run := DailySunWorld.crawl (py "[]") (py "Some text") 1 1 in
      trace (snd run) !! 7%nat = Some (EvCount 1 1)
      /\ trace (snd run) !! 12%nat
         = Some (EvFetch Detail
                   (py "https://www.daily-sun.com/sports/853261/match"))
      /\ collected_count (snd run) = 2%Z).
Proof. vm_compute. repeat split; reflexivity. Qed.

Lemma C9_witness :
  let sp := ProthomAlo.mkSpider 500 500 in
  let resp := ProthomAlo.mkResponse [] (py "[]") [] in
  (ProthomAlo.max_items <= ProthomAlo.items_seen sp)%Z
  /\ fst (fst (ProthomAlo.parse_api (fun _ path => path) (fun _ => true)
                 resp sp)) = [].
Proof.
  cbv zeta.
  assert (Hmax : (ProthomAlo.max_items
                  <= ProthomAlo.items_seen (ProthomAlo.mkSpider 500 500))%Z)
    by (unfold ProthomAlo.max_items; cbn; lia).
  split; [exact Hmax|].
  exact (proj1 (proj2 (proj2 C9_each_category_stops)
                  (fun _ path => path) (fun _ => true)
                  (ProthomAlo.mkResponse [] (py "[]") [])
                  (ProthomAlo.mkSpider 500 500))
               Hmax).
Defined.
